(** * MoeFlavor onboarding portal: landing scene, quiz session, progression

    A shallow embedding of the logic of
    - [src/components/PixelParkLanding.tsx] (sprite movement, collision and
      the portal prompt),
    - [src/components/QuizViewer.tsx] (quiz fetch, scoring, finish), and
    - the portal component [MoeFlavorTrainingPortal] (completion sets,
      unlock predicates, total progress).

    Conventions.
    - Scene coordinates are JS numbers that start at the integers (300, 200)
      and change by the integer step 2 only, so they are modelled in [Z].
    - [Set<string>] is [gset string]; [Record<string, string>] is
      [gmap string string]; arrays are lists.
    - React state is an explicit record; every handler is a function from
      the state it closes over to the state after its setters have run.
    - Quotients of counts are JS numbers, and are modelled at two levels.
      [Binary64] gives the IEEE 754 doubles the engine stores, as primitive
      floats, and settles what is said about the stored values.  [number]
      is the same computation in exact arithmetic (rationals extended with
      the special values [0/0] and [k/0]), used for order and bounds, which
      correctly rounded division and multiplication preserve. *)

From Stdlib Require Import ZArith QArith Qabs Lia Ascii Floats Uint63.
From stdpp Require Import base gmap strings list sets.

Local Open Scope Z_scope.

(* ===================================================================== *)
(** ** PixelParkLanding.tsx *)
(* ===================================================================== *)

Module Landing.

(** [interface Position], and the [{x, y, width, height}] object literals
    of the obstacles, the portal zone and the character box. *)
Record Position := mkPosition { x : Z; y : Z }.

Record Rect := mkRect { rx : Z; ry : Z; width : Z; height : Z }.

Inductive Direction := DirLeft | DirRight | DirUp | DirDown.

(** The four [useState] cells of the component. *)
Record State := mkState {
  characterPos : Position;
  direction : Direction;
  isWalking : bool;
  showPrompt : bool
}.

(** The mutable locals of [moveCharacter]. *)
Record Locals := mkLocals {
  newX : Z;
  newY : Z;
  moved : bool;
  newDirection : Direction
}.

(** [keysPressed.current.has(a) || keysPressed.current.has(b)] *)
Definition held (keysPressed : gset string) (a b : string) : bool :=
  bool_decide (a ∈ keysPressed) || bool_decide (b ∈ keysPressed).

(** The test inside the [for] loop of [checkCollision]. *)
Definition intersects (characterBox obstacle : Rect) : bool :=
  (rx characterBox <? rx obstacle + width obstacle) &&
  (rx characterBox + width characterBox >? rx obstacle) &&
  (ry characterBox <? ry obstacle + height obstacle) &&
  (ry characterBox + height characterBox >? ry obstacle).

(** [for (const obstacle of obstacles) { if (...) return true; }] *)
Fixpoint hitsObstacle (characterBox : Rect) (obstacles : list Rect) : bool :=
  match obstacles with
  | [] => false
  | obstacle :: rest =>
      if intersects characterBox obstacle then true
      else hitsObstacle characterBox rest
  end.

Section Scene.

(** The two scene constants the functions close over. *)
Variable obstacles : list Rect.
Variable portalZone : Rect.

Definition checkCollision (newX newY : Z) : bool :=
  let characterBox := mkRect (newX - 8) (newY - 16) 16 24 in
  if (newX <? 20) || (newX >? 606) || (newY <? 100) || (newY >? 240)
  then true
  else hitsObstacle characterBox obstacles.

Definition checkPortalZone (x y : Z) : bool :=
  (x >? rx portalZone) &&
  (x <? rx portalZone + width portalZone) &&
  (y >? ry portalZone) &&
  (y <? ry portalZone + height portalZone).

(** The four key tests of [moveCharacter], in source order. *)
Definition applyKeys (keysPressed : gset string) (s : State) : Locals :=
  let speed := 2 in
  let l := mkLocals (x (characterPos s)) (y (characterPos s)) false (direction s) in
  let l := if held keysPressed "ArrowUp" "w"
           then mkLocals (newX l) (newY l - speed) true DirUp else l in
  let l := if held keysPressed "ArrowDown" "s"
           then mkLocals (newX l) (newY l + speed) true DirDown else l in
  let l := if held keysPressed "ArrowLeft" "a"
           then mkLocals (newX l - speed) (newY l) true DirLeft else l in
  let l := if held keysPressed "ArrowRight" "d"
           then mkLocals (newX l + speed) (newY l) true DirRight else l in
  l.

(** One animation tick. *)
Definition moveCharacter (keysPressed : gset string) (s : State) : State :=
  let l := applyKeys keysPressed s in
  if moved l then
    let s1 :=
      if negb (checkCollision (newX l) (newY l)) then
        mkState (mkPosition (newX l) (newY l)) (newDirection l) true (showPrompt s)
      else
        mkState (characterPos s) (direction s) false (showPrompt s) in
    mkState (characterPos s1) (direction s1) (isWalking s1)
            (checkPortalZone (newX l) (newY l))
  else
    mkState (characterPos s) (direction s) false (showPrompt s).

End Scene.

(** The scene of the component. *)
Definition obstacles : list Rect :=
  [ mkRect (60 - 30) 142 60 100;   (* tree1 *)
    mkRect (546 - 30) 142 60 100;  (* tree2 *)
    mkRect 170 212 54 40;          (* bench1 *)
    mkRect 486 212 54 40;          (* bench2 *)
    mkRect 230 213 90 40;          (* bush1 *)
    mkRect 310 213 85 40;          (* bush2 *)
    mkRect 546 213 103 40 ].       (* bush3 *)

Definition portalZone : Rect := mkRect 280 180 66 80.

(** The initial values of the [useState] cells. *)
Definition initialState : State :=
  mkState (mkPosition 300 200) DirDown false false.

End Landing.

(* ===================================================================== *)
(** ** JS numbers that are quotients of counts, in exact arithmetic *)
(* ===================================================================== *)

(** [a / b] on two array lengths or counters is a fraction, [Infinity]
    ([k / 0] with [k > 0]) or [NaN] ([0 / 0]).  The finite values are exact
    rationals: this is the computation before rounding.  The doubles that
    the engine stores are those of [Binary64] below; the two are compared
    in [percentage_close]. *)
Inductive number := Finite (q : Q) | Infinity | NaN.

Definition divide (a b : nat) : number :=
  match b, a with
  | O, O => NaN
  | O, S _ => Infinity
  | S _, _ => Finite (Z.of_nat a # Pos.of_nat b)
  end.

(** [n * k] for a positive literal [k]. *)
Definition times (n : number) (k : Q) : number :=
  match n with
  | Finite q => Finite (q * k)
  | Infinity => Infinity
  | NaN => NaN
  end.

(** [n >= k]; every comparison with [NaN] is false. *)
Definition geq (n : number) (k : Q) : bool :=
  match n with
  | Finite q => Qle_bool k q
  | Infinity => true
  | NaN => false
  end.

(** Order on the finite values, false as soon as a side is not finite. *)
Definition number_le (a b : number) : Prop :=
  match a, b with
  | Finite p, Finite q => (p <= q)%Q
  | _, _ => False
  end.

(** What a JS expression evaluates to: a value, or a thrown [TypeError]
    (property access on [undefined]). *)
Inductive completion (A : Type) := Return (v : A) | ThrowTypeError.
Arguments Return {A} v.
Arguments ThrowTypeError {A}.

(** [arr[k]] for a number [k]: [undefined] outside [0 .. length-1]. *)
Definition index {A} (arr : list A) (k : Z) : option A :=
  if k <? 0 then None else arr !! Z.to_nat k.

(** [arr.findIndex(p)]: the first index whose element satisfies [p],
    or [-1]. *)
Fixpoint findIndexFrom {A} (p : A → bool) (arr : list A) (i : Z) : Z :=
  match arr with
  | [] => -1
  | a :: rest => if p a then i else findIndexFrom p rest (i + 1)
  end.

Definition findIndex {A} (p : A → bool) (arr : list A) : Z :=
  findIndexFrom p arr 0.

(** [arr.every(p)] *)
Fixpoint every {A} (p : A → bool) (arr : list A) : bool :=
  match arr with
  | [] => true
  | a :: rest => if p a then every p rest else false
  end.

(** The properties every plain object inherits from [Object.prototype]:
    reading one of these names from [{}] gives a function (an object for
    [__proto__]), not [undefined]. *)
Definition inheritedProperty (name : string) : bool :=
  existsb (String.eqb name)
    ["constructor"; "hasOwnProperty"; "isPrototypeOf"; "propertyIsEnumerable";
     "toLocaleString"; "toString"; "valueOf"; "__proto__";
     "__defineGetter__"; "__defineSetter__";
     "__lookupGetter__"; "__lookupSetter__"].

(** Truthiness of [obj[key]] for a plain object whose own properties are
    strings: an own property is truthy unless it is the empty string; a
    key that is not an own property is looked up on [Object.prototype]. *)
Definition truthyAt (obj : gmap string string) (key : string) : bool :=
  match obj !! key with
  | Some value => negb (String.eqb value "")
  | None => inheritedProperty key
  end.

(** Truthiness of an optional string ([undefined], [null] and the empty
    string are falsy). *)
Definition truthy (s : option string) : bool :=
  match s with
  | Some s => negb (String.eqb s "")
  | None => false
  end.

(* ===================================================================== *)
(** ** QuizViewer.tsx *)
(* ===================================================================== *)

Module QuizQuestion.
Record Options := mkOptions { A : string; B : string; C : string; D : string }.
Record t := mk {
  id : string;
  number : Z;
  question : string;
  options : Options;
  correctAnswer : string
}.
End QuizQuestion.

Module QuizViewer.

(** The [useState] cells of the component. *)
Record State := mkState {
  questions : list QuizQuestion.t;
  loading : bool;
  error : option string;
  currentQuestionIndex : Z;
  answers : gmap string string;
  showResults : bool;
  score : number
}.

Definition initialState : State :=
  mkState [] true None 0 ∅ false (Finite 0).

(** The body of the JSON response, as far as [fetchQuiz] reads it. *)
Record QuizData := mkQuizData {
  data_error : option string;
  data_questions : option (list QuizQuestion.t)
}.

(** What [await fetch(...)] followed by [await response.json()] gives:
    a parsed body, or a rejection (transport failure, malformed JSON). *)
Inductive Response := Rejected | Json (data : QuizData).

(** [fetchQuiz], from [setLoading(true)] to its last setter. *)
Definition fetchQuiz (r : Response) (s : State) : State :=
  let failed :=
    mkState (questions s) false (Some "Failed to load quiz.")
            (currentQuestionIndex s) (answers s) (showResults s) (score s) in
  match r with
  | Rejected => failed
  | Json data =>
      if truthy (data_error data) then failed
      else
        mkState (default [] (data_questions data)) false (error s)
                (currentQuestionIndex s) (answers s) (showResults s) (score s)
  end.

(** [handleAnswer] *)
Definition handleAnswer (questionId answer : string) (s : State) : State :=
  mkState (questions s) (loading s) (error s) (currentQuestionIndex s)
          (<[questionId := answer]> (answers s)) (showResults s) (score s).

(** [answers[q.id] === q.correctAnswer] *)
Definition isCorrect (answers : gmap string string) (q : QuizQuestion.t) : bool :=
  bool_decide (answers !! QuizQuestion.id q = Some (QuizQuestion.correctAnswer q)).

(** The [forEach] loop of [handleSubmit] over the counter [correct]. *)
Definition countCorrect (answers : gmap string string)
    (questions : list QuizQuestion.t) : nat :=
  fold_left (λ correct q, if isCorrect answers q then S correct else correct)
            questions O.

Definition handleSubmit (s : State) : State :=
  let correct := countCorrect (answers s) (questions s) in
  let percentage := times (divide correct (length (questions s))) 100 in
  mkState (questions s) (loading s) (error s) (currentQuestionIndex s)
          (answers s) true percentage.

(** [handleFinish]: the argument handed to [onComplete]. *)
Definition handleFinish (s : State) : bool :=
  geq (score s) 70.

(** [questions.every(q => answers[q.id])] *)
Definition allAnswered (s : State) : bool :=
  every (λ q, truthyAt (answers s) (QuizQuestion.id q)) (questions s).

(** Which of the four returns of the component is taken, or the
    [TypeError] of [currentQuestion.question] when [currentQuestion] is
    [undefined]. *)
Inductive View :=
| LoadingView
| FailedToLoadView (message : string)   (* message and a Go Back button *)
| ResultsView (passed : bool) (score : number)
| QuestionView (currentQuestion : QuizQuestion.t) (submitEnabled : bool).

Definition render (s : State) : completion View :=
  if loading s then Return LoadingView
  else if truthy (error s) then Return (FailedToLoadView (default "" (error s)))
  else
    let currentQuestion := index (questions s) (currentQuestionIndex s) in
    if showResults s then Return (ResultsView (geq (score s) 70) (score s))
    else
      match currentQuestion with
      | Some q => Return (QuestionView q (allAnswered s))
      | None => ThrowTypeError
      end.

End QuizViewer.

(* ===================================================================== *)
(** ** MoeFlavorTrainingPortal *)
(* ===================================================================== *)

Module Lesson.
Record t := mk {
  id : string;
  number : Z;
  title : string;
  duration : string;
  contentType : string
}.
End Lesson.

Module Quiz.
Record t := mk {
  id : string;
  title : string;
  passingScore : Q;
  required : bool
}.
End Quiz.

(** [interface Module] ([Module] is reserved here). *)
Module CModule.
Record t := mk {
  id : string;
  number : Z;
  title : string;
  description : string;
  icon : string;
  lessons : list Lesson.t;
  quiz : option Quiz.t
}.
End CModule.

Module Phase.
Record t := mk {
  id : string;
  number : Z;
  title : string;
  description : string;
  modules : list CModule.t
}.
End Phase.

Module Portal.

(** The [useState] cells the progression logic reads or writes. *)
Record State := mkState {
  phases : list Phase.t;
  completedLessons : gset string;
  completedQuizzes : gset string;
  currentLesson : option string;
  currentQuiz : option string
}.

(** [handleLessonComplete] *)
Definition handleLessonComplete (lessonId : string) (s : State) : State :=
  mkState (phases s) (completedLessons s ∪ {[lessonId]}) (completedQuizzes s)
          None (currentQuiz s).

(** [handleQuizComplete] *)
Definition handleQuizComplete (quizId : string) (passed : bool) (s : State) : State :=
  let completedQuizzes' :=
    if passed then completedQuizzes s ∪ {[quizId]} else completedQuizzes s in
  mkState (phases s) (completedLessons s) completedQuizzes'
          (currentLesson s) None.

(** [onComplete={(passed) => handleQuizComplete(currentQuiz, passed)}],
    called by the quiz view's [handleFinish]; the quiz view is mounted
    only while [currentQuiz] is set. *)
Definition finishQuiz (quiz : QuizViewer.State) (s : State) : State :=
  match currentQuiz s with
  | Some quizId => handleQuizComplete quizId (QuizViewer.handleFinish quiz) s
  | None => s
  end.

(** [isLessonUnlocked]; [previousLesson.id] throws when the array access
    gave [undefined]. *)
Definition isLessonUnlocked (completedLessons : gset string)
    (lesson : Lesson.t) (module : CModule.t) : completion bool :=
  let lessonIndex :=
    findIndex (λ l, String.eqb (Lesson.id l) (Lesson.id lesson))
              (CModule.lessons module) in
  if lessonIndex =? 0 then Return true
  else
    match index (CModule.lessons module) (lessonIndex - 1) with
    | Some previousLesson =>
        Return (bool_decide (Lesson.id previousLesson ∈ completedLessons))
    | None => ThrowTypeError
    end.

(** [isQuizUnlocked] *)
Definition isQuizUnlocked (completedLessons : gset string)
    (module : CModule.t) : bool :=
  every (λ lesson, bool_decide (Lesson.id lesson ∈ completedLessons))
        (CModule.lessons module).

(** [isModuleComplete] *)
Definition isModuleComplete (completedLessons completedQuizzes : gset string)
    (module : CModule.t) : bool :=
  let allLessonsComplete :=
    every (λ l, bool_decide (Lesson.id l ∈ completedLessons))
          (CModule.lessons module) in
  let quizComplete :=
    match CModule.quiz module with
    | None => true
    | Some q => bool_decide (Quiz.id q ∈ completedQuizzes)
    end in
  allLessonsComplete && quizComplete.

(** The two counters of [getTotalProgress]. *)
Record Counters := mkCounters { totalItems : nat; completedItems : nat }.

(** The body of [phase.modules.forEach(module => ...)]. *)
Definition countModule (completedLessons completedQuizzes : gset string)
    (c : Counters) (module : CModule.t) : Counters :=
  let totalItems := (totalItems c + length (CModule.lessons module))%nat in
  let totalItems :=
    match CModule.quiz module with
    | Some _ => (totalItems + 1)%nat
    | None => totalItems
    end in
  let completedItems :=
    fold_left
      (λ completedItems lesson,
         if bool_decide (Lesson.id lesson ∈ completedLessons)
         then S completedItems else completedItems)
      (CModule.lessons module) (completedItems c) in
  let completedItems :=
    match CModule.quiz module with
    | Some q =>
        if bool_decide (Quiz.id q ∈ completedQuizzes)
        then S completedItems else completedItems
    | None => completedItems
    end in
  mkCounters totalItems completedItems.

(** The two nested [forEach] loops. *)
Definition countItems (phases : list Phase.t)
    (completedLessons completedQuizzes : gset string) : Counters :=
  fold_left
    (λ c phase,
       fold_left (countModule completedLessons completedQuizzes)
                 (Phase.modules phase) c)
    phases (mkCounters O O).

(** [getTotalProgress] *)
Definition getTotalProgress (phases : list Phase.t)
    (completedLessons completedQuizzes : gset string) : number :=
  let c := countItems phases completedLessons completedQuizzes in
  if (0 <? totalItems c)%nat
  then times (divide (completedItems c) (totalItems c)) 100
  else Finite 0.

(** A completion event reported by a viewer. *)
Inductive Event :=
| LessonCompleted (lessonId : string)
| QuizFinished (quizId : string) (passed : bool).

Definition handle (s : State) (e : Event) : State :=
  match e with
  | LessonCompleted lessonId => handleLessonComplete lessonId s
  | QuizFinished quizId passed => handleQuizComplete quizId passed s
  end.

(** The progress shown for a portal state. *)
Definition progress (s : State) : number :=
  getTotalProgress (phases s) (completedLessons s) (completedQuizzes s).

End Portal.

(* ===================================================================== *)
(** ** The stored numbers, in binary64 *)
(* ===================================================================== *)

Module Binary64.

(** A count (an array length or a counter incremented from 0) as a double.
    Counts are below 2^32, the bound on array lengths, where the
    conversion is exact. *)
Definition ofZ (n : Z) : float := PrimFloat.of_uint63 (Uint63.of_Z n).

Definition ofCount (n : nat) : float := ofZ (Z.of_nat n).

(** [(count / total) * 100], each operation rounded to nearest. *)
Definition percentageZ (count total : Z) : float :=
  (ofZ count / ofZ total * 100)%float.

Definition percentage (count total : nat) : float :=
  percentageZ (Z.of_nat count) (Z.of_nat total).

(** [handleSubmit] of the quiz view: the value given to [setScore]. *)
Definition handleSubmit (s : QuizViewer.State) : float :=
  let correct := QuizViewer.countCorrect (QuizViewer.answers s)
                                         (QuizViewer.questions s) in
  percentage correct (length (QuizViewer.questions s)).

(** [handleFinish]: [score >= 70], false for [NaN]. *)
Definition handleFinish (score : float) : bool :=
  PrimFloat.leb 70 score.

(** [onComplete={(passed) => handleQuizComplete(currentQuiz, passed)}],
    called with the result of [handleFinish]. *)
Definition finishQuiz (score : float) (s : Portal.State) : Portal.State :=
  match Portal.currentQuiz s with
  | Some quizId => Portal.handleQuizComplete quizId (handleFinish score) s
  | None => s
  end.

(** [getTotalProgress] *)
Definition getTotalProgress (phases : list Phase.t)
    (completedLessons completedQuizzes : gset string) : float :=
  let c := Portal.countItems phases completedLessons completedQuizzes in
  if (0 <? Portal.totalItems c)%nat
  then percentage (Portal.completedItems c) (Portal.totalItems c)
  else 0%float.

(** The exact value of a finite double, as a rational. *)
Definition valueOf (f : float) : option Q :=
  match Prim2SF f with
  | S754_zero _ => Some 0%Q
  | S754_finite sign m e =>
      let num := if sign then Z.neg m else Z.pos m in
      Some (match e with
            | Z.neg p => num # (2 ^ p)
            | _ => inject_Z (num * 2 ^ e)
            end)
  | _ => None
  end.

(** The largest [total] for which the doubles are compared with the exact
    quotients one by one. *)
Definition checked : nat := 500.

(** What is compared: the double is finite and within [2^-46] of
    [100 * count / total], and it is at least 70 exactly when the exact
    quotient is. *)
Definition closeZ (count total : Z) : bool :=
  match valueOf (percentageZ count total) with
  | Some q =>
      let exact := (100 * inject_Z count / inject_Z total)%Q in
      Qle_bool (Qabs (q - exact)) (1 # 2 ^ 46)
      && Bool.eqb (PrimFloat.leb 70 (percentageZ count total))
                  (Qle_bool 70 exact)
  | None => false
  end.

Definition closeUpTo (N : nat) : bool :=
  let counts := List.map Z.of_nat (seq 0 (S N)) in
  forallb
    (λ total,
       (total =? 0)
       || forallb (λ count, (total <? count) || closeZ count total) counts)
    counts.

End Binary64.

(* ===================================================================== *)
(** ** The properties, in the words of the specification *)
(* ===================================================================== *)

Module Spec.

(** The actor box [x-8, x+8] × [y-16, y+8] and an obstacle overlap on
    both axes, strictly. *)
Definition overlaps (x y : Z) (o : Landing.Rect) : Prop :=
  x - 8 < Landing.rx o + Landing.width o ∧ Landing.rx o < x + 8 ∧
  y - 16 < Landing.ry o + Landing.height o ∧ Landing.ry o < y + 8.

Definition overlapsNone (obstacles : list Landing.Rect) (x y : Z) : Prop :=
  ∀ o, o ∈ obstacles → ¬ overlaps x y o.

(** The permitted rectangle of the scene. *)
Definition inBounds (x y : Z) : Prop :=
  20 ≤ x ≤ 606 ∧ 100 ≤ y ≤ 240.

(** Strict point-in-rectangle test. *)
Definition insideZone (zone : Landing.Rect) (p : Landing.Position) : Prop :=
  Landing.rx zone < Landing.x p < Landing.rx zone + Landing.width zone ∧
  Landing.ry zone < Landing.y p < Landing.ry zone + Landing.height zone.

(** "After every movement tick the prompt-visible flag is the zone test of
    the actor's current position." *)
Definition promptTracksPosition (obstacles : list Landing.Rect)
    (zone : Landing.Rect) : Prop :=
  ∀ keys s,
    let s' := Landing.moveCharacter obstacles zone keys s in
    Landing.showPrompt s' = true ↔ insideZone zone (Landing.characterPos s').

(** The number of questions answered correctly. *)
Definition correctAnswers (answers : gmap string string)
    (questions : list QuizQuestion.t) : nat :=
  length (filter (λ q, answers !! QuizQuestion.id q
                       = Some (QuizQuestion.correctAnswer q)) questions).

(** "100 * count / total", as a rational. *)
Definition ratio (count total : nat) : Q :=
  (100 * inject_Z (Z.of_nat count) / inject_Z (Z.of_nat total))%Q.

(** "100 * (number of questions answered correctly) / (total number of
    questions)" *)
Definition scoreOf (answers : gmap string string)
    (questions : list QuizQuestion.t) : Q :=
  ratio (correctAnswers answers questions) (length questions).

(** All modules of the tree, all their lessons, all their quizzes. *)
Definition allModules (phases : list Phase.t) : list CModule.t :=
  phases ≫= Phase.modules.

Definition allLessons (phases : list Phase.t) : list Lesson.t :=
  allModules phases ≫= CModule.lessons.

Definition allQuizzes (phases : list Phase.t) : list Quiz.t :=
  omap CModule.quiz (allModules phases).

(** "the sum over all modules of (number of lessons, plus 1 if the module
    has a quiz)" *)
Definition total (phases : list Phase.t) : nat :=
  sum_list_with
    (λ m, length (CModule.lessons m)
          + match CModule.quiz m with Some _ => 1 | None => 0 end)%nat
    (allModules phases).

(** "the number of completed lessons belonging to any module plus the
    number of completed quizzes belonging to any module" *)
Definition done (phases : list Phase.t)
    (completedLessons completedQuizzes : gset string) : nat :=
  (length (filter (λ l, Lesson.id l ∈ completedLessons) (allLessons phases))
   + length (filter (λ q, Quiz.id q ∈ completedQuizzes) (allQuizzes phases)))%nat.

(** "[lesson] is the first element of [module.lessons], or the lesson
    immediately preceding it has its id in the completed-lessons set." *)
Definition firstOrPredecessorDone (completedLessons : gset string)
    (lesson : Lesson.t) (module : CModule.t) : Prop :=
  head (CModule.lessons module) = Some lesson ∨
  ∃ i previous,
    CModule.lessons module !! S i = Some lesson ∧
    CModule.lessons module !! i = Some previous ∧
    Lesson.id previous ∈ completedLessons.

(** The unlock rule for every lesson occurring in its module. *)
Definition unlockRule : Prop :=
  ∀ completedLessons module lesson,
    lesson ∈ CModule.lessons module →
    Portal.isLessonUnlocked completedLessons lesson module = Return true
    ↔ firstOrPredecessorDone completedLessons lesson module.


(** "[totalProgress()] returns 100 * done / total", read of the returned
    double. *)
Definition progressIsExact : Prop :=
  ∀ phases completedLessons completedQuizzes,
    total phases ≠ O →
    ∃ q, Binary64.valueOf
           (Binary64.getTotalProgress phases completedLessons completedQuizzes)
         = Some q
         ∧ (q == ratio (done phases completedLessons completedQuizzes)
                       (total phases))%Q.

End Spec.

(* ===================================================================== *)
(** ** PixelParkLanding.tsx: the key handlers *)
(* ===================================================================== *)

Module Keyboard.

(** [String.prototype.toLowerCase] on the ASCII range, which holds every
    key name the handlers compare with. *)
Definition lowerAscii (c : ascii) : ascii :=
  let n := nat_of_ascii c in
  if ((65 <=? n) && (n <=? 90))%nat then ascii_of_nat (n + 32) else c.

Fixpoint toLowerCase (s : string) : string :=
  match s with
  | EmptyString => EmptyString
  | String c rest => String (lowerAscii c) (toLowerCase rest)
  end.

(** The array literal of [handleKeyDown]. *)
Definition movementKeys : list string :=
  ["arrowup"; "arrowdown"; "arrowleft"; "arrowright"; "w"; "a"; "s"; "d"].

(** [arr.includes(key)] on strings. *)
Definition includes (arr : list string) (key : string) : bool :=
  existsb (String.eqb key) arr.

(** The chain of conditionals that names the entry of [keysPressed]. *)
Definition keyName (key : string) : string :=
  if String.eqb key "arrowup" then "ArrowUp"
  else if String.eqb key "arrowdown" then "ArrowDown"
  else if String.eqb key "arrowleft" then "ArrowLeft"
  else if String.eqb key "arrowright" then "ArrowRight"
  else key.

(** What one [keydown] event does: the new [keysPressed], whether
    [e.preventDefault()] ran and whether [onEnterPortal()] was called. *)
Record KeyDown := mkKeyDown {
  keysPressed : gset string;
  preventDefault : bool;
  enterPortal : bool
}.

Definition handleKeyDown (showPrompt : bool) (eKey : string)
    (keysPressed : gset string) : KeyDown :=
  let key := toLowerCase eKey in
  let isMovement := includes movementKeys key in
  mkKeyDown
    (if isMovement then keysPressed ∪ {[keyName key]} else keysPressed)
    isMovement
    (String.eqb key "enter" && showPrompt).

Definition handleKeyUp (eKey : string) (keysPressed : gset string) : gset string :=
  let key := toLowerCase eKey in
  keysPressed ∖ {[keyName key]}.

(** A keyboard event, and its effect on [keysPressed]. *)
Inductive KeyEvent := Down (eKey : string) | Up (eKey : string).

Definition press (showPrompt : bool) (keysPressed : gset string)
    (e : KeyEvent) : gset string :=
  match e with
  | Down eKey => Keyboard.keysPressed (handleKeyDown showPrompt eKey keysPressed)
  | Up eKey => handleKeyUp eKey keysPressed
  end.

End Keyboard.

(* ===================================================================== *)
(** ** QuizViewer.tsx: the buttons of the question and results views *)
(* ===================================================================== *)

Module QuizSession.
Import QuizViewer.

(** Previous: [setCurrentQuestionIndex(prev => Math.max(0, prev - 1))] *)
Definition previous (s : State) : State :=
  mkState (questions s) (loading s) (error s)
          (Z.max 0 (currentQuestionIndex s - 1))
          (answers s) (showResults s) (score s).

(** Next:
    [setCurrentQuestionIndex(prev => Math.min(questions.length - 1, prev + 1))] *)
Definition next (s : State) : State :=
  mkState (questions s) (loading s) (error s)
          (Z.min (Z.of_nat (length (questions s)) - 1) (currentQuestionIndex s + 1))
          (answers s) (showResults s) (score s).

(** Try Again: [setShowResults(false); setCurrentQuestionIndex(0);
    setAnswers({})]; the score cell is left as it is. *)
Definition tryAgain (s : State) : State :=
  mkState (questions s) (loading s) (error s) 0 ∅ false (score s).

(** The keys of [currentQuestion.options], in the order of
    [Object.entries]. *)
Inductive OptionKey := KeyA | KeyB | KeyC | KeyD.

Definition optionName (k : OptionKey) : string :=
  match k with KeyA => "A" | KeyB => "B" | KeyC => "C" | KeyD => "D" end.

(** A click on one of the buttons the component can render (Back, Go Back
    and Finish only call the parent and are not listed). *)
Inductive Click :=
| ClickOption (key : OptionKey)
| ClickPrevious
| ClickNext
| ClickSubmit
| ClickTryAgain.

(** The effect of a click in the view that is on screen: the loading and
    failed views have no such button; the results view has Try Again when
    the attempt failed; the question view has the option buttons, Previous
    (disabled at index 0) and, at the last index, Submit (disabled unless
    [allAnswered]) in place of Next.  A button that is not rendered or is
    disabled does nothing. *)
Definition click (s : State) (c : Click) : State :=
  if loading s || truthy (error s) then s
  else if showResults s then
    match c with
    | ClickTryAgain => if negb (geq (score s) 70) then tryAgain s else s
    | _ => s
    end
  else
    match index (questions s) (currentQuestionIndex s) with
    | None => s
    | Some currentQuestion =>
        let last :=
          currentQuestionIndex s =? Z.of_nat (length (questions s)) - 1 in
        match c with
        | ClickOption key =>
            handleAnswer (QuizQuestion.id currentQuestion) (optionName key) s
        | ClickPrevious =>
            if currentQuestionIndex s =? 0 then s else previous s
        | ClickNext => if last then s else next s
        | ClickSubmit => if last && allAnswered s then handleSubmit s else s
        | ClickTryAgain => s
        end
    end.

(** The percentage [handleSubmit] computes from the answers of a state. *)
Definition percentage (s : State) : number :=
  times (divide (countCorrect (answers s) (questions s))
                (length (questions s))) 100.

(** A sequence of clicks. *)
Definition clicks (s : State) (cs : list Click) : State :=
  fold_left click cs s.

(** [handleAnswer(q.id, q.correctAnswer)] for every question in turn. *)
Definition answerCorrectly (s : State) : State :=
  fold_left
    (λ s q, handleAnswer (QuizQuestion.id q) (QuizQuestion.correctAnswer q) s)
    (questions s) s.

End QuizSession.

(* ===================================================================== *)
(** ** LessonViewer.tsx *)
(* ===================================================================== *)

Module LessonContent.
Record t := mk {
  order : Z;
  type : string;
  text : string;
  mediaUrl : string
}.
End LessonContent.

Module LessonViewer.

Record State := mkState {
  content : list LessonContent.t;
  loading : bool;
  error : option string
}.

Definition initialState : State := mkState [] true None.

Record LessonData := mkLessonData {
  data_error : option string;
  data_content : option (list LessonContent.t)
}.

Inductive Response := Rejected | Json (data : LessonData).

(** [fetchLesson], from [setLoading(true)] to its last setter. *)
Definition fetchLesson (r : Response) (s : State) : State :=
  let failed := mkState (content s) false (Some "Failed to load lesson content.") in
  match r with
  | Rejected => failed
  | Json data =>
      if truthy (data_error data) then failed
      else mkState (default [] (data_content data)) false (error s)
  end.

(** What a content block renders to; a block of another type, or a media
    block without [mediaUrl], renders an empty [div]. *)
Inductive Block :=
| Heading (text : string)
| Paragraph (text : string)
| Image (src : string)
| Video (src : string)
| EmptyBlock.

Definition renderBlock (block : LessonContent.t) : Block :=
  let nonEmpty (s : string) := negb (String.eqb s "") in
  if String.eqb (LessonContent.type block) "heading"
  then Heading (LessonContent.text block)
  else if String.eqb (LessonContent.type block) "text"
  then Paragraph (LessonContent.text block)
  else if String.eqb (LessonContent.type block) "image"
          && nonEmpty (LessonContent.mediaUrl block)
  then Image (LessonContent.mediaUrl block)
  else if String.eqb (LessonContent.type block) "video"
          && nonEmpty (LessonContent.mediaUrl block)
  then Video (LessonContent.mediaUrl block)
  else EmptyBlock.

(** The three returns of the component; the content view ends with the
    Mark as Complete button. *)
Inductive View :=
| LoadingView
| FailedToLoadView (message : string)
| ContentView (blocks : list Block).

Definition render (s : State) : View :=
  if loading s then LoadingView
  else if truthy (error s) then FailedToLoadView (default "" (error s))
  else ContentView (renderBlock <$> content s).

End LessonViewer.

(* ===================================================================== *)
(** ** MoeFlavorTrainingPortal: opening and closing the viewers *)
(* ===================================================================== *)

Module Navigation.
Import Portal.

(** Which of the returns of the portal is taken, once the landing page is
    left: [if (currentLesson)] comes before [if (currentQuiz)], and both
    before the portal interface. *)
Inductive View :=
| LessonView (lessonId : string)
| QuizView (quizId : string)
| PortalView.

Definition view (s : State) : View :=
  if truthy (currentLesson s) then LessonView (default "" (currentLesson s))
  else if truthy (currentQuiz s) then QuizView (default "" (currentQuiz s))
  else PortalView.

(** The [onClick] of a lesson row:
    [isUnlocked && !isCompleted && setCurrentLesson(lesson.id)], with
    [isUnlocked] computed while the row is rendered. *)
Definition clickLesson (lesson : Lesson.t) (module : CModule.t)
    (s : State) : completion State :=
  let isCompleted := bool_decide (Lesson.id lesson ∈ completedLessons s) in
  match isLessonUnlocked (completedLessons s) lesson module with
  | ThrowTypeError => ThrowTypeError
  | Return isUnlocked =>
      Return (if isUnlocked && negb isCompleted
              then mkState (phases s) (completedLessons s) (completedQuizzes s)
                           (Some (Lesson.id lesson)) (currentQuiz s)
              else s)
  end.

(** The [onClick] of the quiz row, which is rendered when [module.quiz]
    is set. *)
Definition clickQuiz (module : CModule.t) (s : State) : State :=
  match CModule.quiz module with
  | None => s
  | Some quiz =>
      if isQuizUnlocked (completedLessons s) module
         && negb (bool_decide (Quiz.id quiz ∈ completedQuizzes s))
      then mkState (phases s) (completedLessons s) (completedQuizzes s)
                   (currentLesson s) (Some (Quiz.id quiz))
      else s
  end.

(** [onBack] of the two viewers. *)
Definition closeLesson (s : State) : State :=
  mkState (phases s) (completedLessons s) (completedQuizzes s)
          None (currentQuiz s).

Definition closeQuiz (s : State) : State :=
  mkState (phases s) (completedLessons s) (completedQuizzes s)
          (currentLesson s) None.

(** What the user can do: click a lesson row or a quiz row of the
    training tab, or use a button of the viewer that is open. *)
Inductive Action :=
| ClickLesson (lesson : Lesson.t) (module : CModule.t)
| ClickQuiz (module : CModule.t)
| LessonMarkedComplete
| LessonBack
| QuizFinish (passed : bool)
| QuizBack.

(** An action on the view that is on screen; an action whose control is
    not on screen does nothing.  The rows of the training tab are taken to
    be clickable whenever no viewer is open; the loading and error screens
    and the other tabs, which show no rows, only remove behaviours. *)
Definition act (s : State) (a : Action) : completion State :=
  match view s, a with
  | PortalView, ClickLesson lesson module => clickLesson lesson module s
  | PortalView, ClickQuiz module => Return (clickQuiz module s)
  | LessonView lessonId, LessonMarkedComplete =>
      Return (handleLessonComplete lessonId s)
  | LessonView _, LessonBack => Return (closeLesson s)
  | QuizView quizId, QuizFinish passed =>
      Return (handleQuizComplete quizId passed s)
  | QuizView _, QuizBack => Return (closeQuiz s)
  | _, _ => Return s
  end.

Fixpoint run (s : State) (actions : list Action) : completion State :=
  match actions with
  | [] => Return s
  | a :: rest =>
      match act s a with
      | Return s' => run s' rest
      | ThrowTypeError => ThrowTypeError
      end
  end.

(** The rows of the training tab: every lesson and the quiz of every
    module of every phase, and nothing else. *)
Definition onScreen (phases : list Phase.t) (a : Action) : Prop :=
  match a with
  | ClickLesson lesson module =>
      (∃ phase, phase ∈ phases ∧ module ∈ Phase.modules phase)
      ∧ lesson ∈ CModule.lessons module
  | ClickQuiz module =>
      ∃ phase, phase ∈ phases ∧ module ∈ Phase.modules phase
  | _ => True
  end.

(** The portal as it is mounted: nothing completed, no viewer open. *)
Definition start (phases : list Phase.t) : State :=
  mkState phases ∅ ∅ None None.

(** Completion follows the order of the lessons: in every module a
    completed lesson has all the lessons before it completed, and a passed
    quiz has all the lessons of its module completed. *)
Definition inOrder (s : State) : Prop :=
  ∀ phase module, phase ∈ phases s → module ∈ Phase.modules phase →
    (∀ i lesson previous,
       CModule.lessons module !! S i = Some lesson →
       CModule.lessons module !! i = Some previous →
       Lesson.id lesson ∈ completedLessons s →
       Lesson.id previous ∈ completedLessons s)
    ∧ (∀ quiz lesson,
         CModule.quiz module = Some quiz →
         Quiz.id quiz ∈ completedQuizzes s →
         lesson ∈ CModule.lessons module →
         Lesson.id lesson ∈ completedLessons s).

End Navigation.

(* ===================================================================== *)
(** ** Landing scene: derived notions *)
(* ===================================================================== *)

Module Movement.
Import Landing.

(** The direction faced after an accepted move: the last held key in the
    order the source tests them (up, down, left, right). *)
Definition facing (keys : gset string) (current : Direction) : Direction :=
  if held keys "ArrowRight" "d" then DirRight
  else if held keys "ArrowLeft" "a" then DirLeft
  else if held keys "ArrowDown" "s" then DirDown
  else if held keys "ArrowUp" "w" then DirUp
  else current.

(** A sequence of ticks, each with the keys held at that tick. *)
Definition ticks (obstacles : list Rect) (portalZone : Rect)
    (held : list (gset string)) (s : State) : State :=
  fold_left (λ s keys, moveCharacter obstacles portalZone keys s) held s.

(** The direction a lower-cased key stands for in the tests of
    [moveCharacter], and the point one step of 2 away in a direction. *)
Definition keyDirection (key : string) : option Direction :=
  if Keyboard.includes ["arrowup"; "w"] key then Some DirUp
  else if Keyboard.includes ["arrowdown"; "s"] key then Some DirDown
  else if Keyboard.includes ["arrowleft"; "a"] key then Some DirLeft
  else if Keyboard.includes ["arrowright"; "d"] key then Some DirRight
  else None.

Definition stepTo (d : Direction) (p : Position) : Position :=
  match d with
  | DirUp => mkPosition (x p) (y p - 2)
  | DirDown => mkPosition (x p) (y p + 2)
  | DirLeft => mkPosition (x p - 2) (y p)
  | DirRight => mkPosition (x p + 2) (y p)
  end.

(** The names under which [handleKeyDown] can store a key. *)
Definition keyNames : gset string :=
  {["ArrowUp"; "ArrowDown"; "ArrowLeft"; "ArrowRight"; "w"; "a"; "s"; "d"]}.

(** A sequence of keyboard events. *)
Definition presses (showPrompt : bool) (events : list Keyboard.KeyEvent)
    (keysPressed : gset string) : gset string :=
  fold_left (Keyboard.press showPrompt) events keysPressed.

End Movement.

(* ===================================================================== *)
(** ** Sample data *)
(* ===================================================================== *)

Module Samples.

(** The actor just left of the portal zone and just above the bushes. *)
Definition besideZone : Landing.State :=
  Landing.mkState (Landing.mkPosition 280 204) Landing.DirDown false false.

Definition lessonA : Lesson.t := Lesson.mk "a" 1 "Welcome" "5 min" "text".
Definition lessonB : Lesson.t := Lesson.mk "b" 2 "Values" "5 min" "text".
Definition lessonC : Lesson.t := Lesson.mk "c" 3 "Tools" "5 min" "video".
(** A third lesson that reuses the id of [lessonB]. *)
Definition lessonB' : Lesson.t := Lesson.mk "b" 3 "Values, again" "5 min" "text".

Definition quizQ : Quiz.t := Quiz.mk "q" "Checkpoint" 70 true.
(** The same quiz with a stricter [passingScore]. *)
Definition quizStrict : Quiz.t := Quiz.mk "q" "Checkpoint" 90 true.

Definition moduleABC : CModule.t :=
  CModule.mk "m1" 1 "Basics" "" "" [lessonA; lessonB; lessonC] (Some quizQ).
Definition moduleAB : CModule.t :=
  CModule.mk "m2" 1 "Basics" "" "" [lessonA; lessonB] (Some quizQ).
(** A module in which two lessons carry the same id. *)
Definition moduleDup : CModule.t :=
  CModule.mk "m3" 1 "Basics" "" "" [lessonA; lessonB; lessonB'] None.

Definition phaseAB : Phase.t := Phase.mk "p1" 1 "Start" "" [moduleAB].

Definition question (id correct : string) : QuizQuestion.t :=
  QuizQuestion.mk id 1 "?" (QuizQuestion.mkOptions "w" "x" "y" "z") correct.

Definition fourQuestions : list QuizQuestion.t :=
  [question "q1" "A"; question "q2" "B"; question "q3" "C"; question "q4" "D"].

(** Three of the four answers are right. *)
Definition threeRight : gmap string string :=
  <["q1" := "A"]> (<["q2" := "B"]> (<["q3" := "C"]> (<["q4" := "A"]> ∅))).

(** Two of the four answers are right. *)
Definition twoRight : gmap string string :=
  <["q1" := "A"]> (<["q2" := "B"]> (<["q3" := "D"]> (<["q4" := "A"]> ∅))).

(** A quiz view with its questions loaded. *)
Definition loaded (questions : list QuizQuestion.t)
    (answers : gmap string string) : QuizViewer.State :=
  QuizViewer.mkState questions false None 0 answers false (Finite 0).

(** The portal while the quiz of [moduleAB] is open. *)
Definition takingQuiz : Portal.State :=
  Portal.mkState [phaseAB] {["a"; "b"]} ∅ None (Some "q").

(** Twenty questions, the first eleven answered correctly; twenty
    lessons, the first eleven completed. *)
Definition twentyIds : list string :=
  ["01"; "02"; "03"; "04"; "05"; "06"; "07"; "08"; "09"; "10";
   "11"; "12"; "13"; "14"; "15"; "16"; "17"; "18"; "19"; "20"].



Definition twentyLessons : Phase.t :=
  Phase.mk "p20" 1 "Twenty" ""
    [CModule.mk "m20" 1 "Twenty" "" ""
       ((λ id, Lesson.mk id 1 "Lesson" "5 min" "text") <$> twentyIds) None].

Definition elevenDone : gset string := list_to_set (take 11 twentyIds).

(** A quiz whose only question has an id that every object inherits. *)
Definition inheritedIdQuiz : list QuizQuestion.t := [question "constructor" "A"].

End Samples.

(* ===================================================================== *)
(** ** Landing scene: collision and the portal prompt *)
(* ===================================================================== *)

Section LandingFacts.
Import Landing.

Lemma intersects_iff x y o :
  intersects (mkRect (x - 8) (y - 16) 16 24) o = true ↔ Spec.overlaps x y o.
Proof.
  unfold intersects, Spec.overlaps; simpl.
  rewrite !andb_true_iff, !Z.ltb_lt, !Z.gtb_lt. lia.
Qed.

Lemma hitsObstacle_false_iff x y obstacles :
  hitsObstacle (mkRect (x - 8) (y - 16) 16 24) obstacles = false
  ↔ Spec.overlapsNone obstacles x y.
Proof.
  unfold Spec.overlapsNone.
  induction obstacles as [|o rest IH]; simpl.
  - split; [intros _ o Ho; inversion Ho | done].
  - destruct (intersects _ o) eqn:Hi.
    + split; [done|]. intros H. exfalso.
      apply (H o); [left | by apply intersects_iff].
    + rewrite IH. split.
      * intros H o' Ho'. apply elem_of_cons in Ho' as [->|Ho']; [|by apply H].
        rewrite <- intersects_iff. by rewrite Hi.
      * intros H o' Ho'. apply H. by right.
Qed.

Lemma checkCollision_false_iff obstacles x y :
  checkCollision obstacles x y = false
  ↔ Spec.overlapsNone obstacles x y ∧ Spec.inBounds x y.
Proof.
  unfold checkCollision, Spec.inBounds.
  destruct (_ || _ || _ || _) eqn:Hb.
  - split; [done|]. intros [_ Hin]. exfalso.
    rewrite !orb_true_iff, !Z.ltb_lt, !Z.gtb_lt in Hb. lia.
  - rewrite hitsObstacle_false_iff.
    rewrite !orb_false_iff, !Z.ltb_ge, !Z.gtb_ltb, !Z.ltb_ge in Hb.
    intuition lia.
Qed.

(** C2. A tick accepts the candidate move (the walking flag is raised
    and the position becomes the candidate) if and only if a movement key
    is held, the actor box at the candidate overlaps no obstacle and the
    candidate point is within the permitted bounds; otherwise the
    position is left as it was. *)
Theorem moveCharacter_accepts_iff obstacles portalZone keys s :
  let l := applyKeys keys s in
  let s' := moveCharacter obstacles portalZone keys s in
  (isWalking s' = true
   ↔ moved l = true ∧ Spec.overlapsNone obstacles (newX l) (newY l)
     ∧ Spec.inBounds (newX l) (newY l))
  ∧ characterPos s'
    = (if isWalking s' then mkPosition (newX l) (newY l) else characterPos s).
Proof.
  intros l s'. subst s'. unfold moveCharacter. fold l.
  rewrite <- checkCollision_false_iff.
  destruct (moved l); simpl.
  - destruct (checkCollision obstacles (newX l) (newY l)); simpl;
      intuition congruence.
  - intuition congruence.
Qed.

End LandingFacts.

Section PromptFacts.
Import Landing.

Lemma checkPortalZone_iff zone p :
  checkPortalZone zone (x p) (y p) = true ↔ Spec.insideZone zone p.
Proof.
  unfold checkPortalZone, Spec.insideZone.
  rewrite !andb_true_iff, !Z.ltb_lt, !Z.gtb_lt. lia.
Qed.

(** With no movement key held, the tick of the component's first state
    leaves the flag down although the actor stands inside the zone. *)
Example idle_tick_keeps_stale_prompt :
  let s' := moveCharacter obstacles portalZone ∅ initialState in
  showPrompt s' = false ∧ characterPos s' = mkPosition 300 200
  ∧ checkPortalZone portalZone 300 200 = true.
Proof. vm_compute. done. Qed.

(** A rejected diagonal step from (280, 204): the flag is the zone test
    of the candidate (282, 206), while the actor stays outside the zone. *)
Example rejected_tick_tests_candidate :
  let s' := moveCharacter obstacles portalZone
              {["ArrowDown"; "ArrowRight"]} Samples.besideZone in
  checkCollision obstacles 282 206 = true
  ∧ characterPos s' = mkPosition 280 204
  ∧ showPrompt s' = true
  ∧ checkPortalZone portalZone 280 204 = false.
Proof. vm_compute. done. Qed.

(** C8, as stated, fails: after the idle tick of the first state the
    flag is not the zone test of the actor's position. *)
Lemma prompt_not_tracking_position :
  ¬ Spec.promptTracksPosition obstacles portalZone.
Proof.
  intros H. specialize (H ∅ initialState). simpl in H.
  destruct H as [_ H].
  assert (Hin : Spec.insideZone portalZone (mkPosition 300 200)).
  { apply checkPortalZone_iff. reflexivity. }
  specialize (H Hin). vm_compute in H. discriminate.
Qed.

(** C8, amended. On a tick that holds no movement key the flag and the
    position are left as they were; on a tick whose candidate move is
    accepted the flag becomes the strict point-in-rectangle test of the
    actor's new position against the trigger zone. *)
Theorem moveCharacter_prompt obstacles portalZone keys s :
  let l := applyKeys keys s in
  let s' := moveCharacter obstacles portalZone keys s in
  moved l = false ∨ checkCollision obstacles (newX l) (newY l) = false →
  if moved l
  then showPrompt s' = true ↔ Spec.insideZone portalZone (characterPos s')
  else showPrompt s' = showPrompt s ∧ characterPos s' = characterPos s.
Proof.
  intros l s' Hcase. subst s'. unfold moveCharacter. fold l.
  destruct (moved l) eqn:Hm.
  - destruct Hcase as [?|Hfree]; [done|]. rewrite Hfree. simpl.
    by rewrite <- checkPortalZone_iff.
  - done.
Qed.

Lemma moveCharacter_prompt_witness :
  let s' := moveCharacter obstacles portalZone {["ArrowLeft"]} initialState in
  showPrompt s' = true ↔ Spec.insideZone portalZone (characterPos s').
Proof.
  refine (moveCharacter_prompt obstacles portalZone {["ArrowLeft"]} initialState _).
  right. vm_compute. reflexivity.
Defined.

End PromptFacts.

(* ===================================================================== *)
(** ** Quiz session: score and outcome *)
(* ===================================================================== *)

Section NumberFacts.

Lemma divide_pos a b :
  b ≠ O →
  ∃ q, divide a b = Finite q
       ∧ (q == inject_Z (Z.of_nat a) / inject_Z (Z.of_nat b))%Q.
Proof.
  intros Hb. destruct b as [|b]; [done|].
  exists (Z.of_nat a # Pos.of_nat (S b)). split; [done|].
  rewrite Qmake_Qdiv, <- Pos.of_nat_succ. reflexivity.
Qed.

Lemma geq_finite q k : geq (Finite q) k = true ↔ (k <= q)%Q.
Proof. simpl. apply Qle_bool_iff. Qed.

Lemma Qle_bool_proper k p q : (p == q)%Q → Qle_bool k p = Qle_bool k q.
Proof.
  intros Hpq. destruct (Qle_bool k q) eqn:Hq.
  - apply Qle_bool_iff. rewrite Hpq. by apply Qle_bool_iff.
  - destruct (Qle_bool k p) eqn:Hp; [|done].
    apply Qle_bool_iff in Hp. rewrite Hpq in Hp.
    apply Qle_bool_iff in Hp. congruence.
Qed.

End NumberFacts.

Section QuizFacts.
Import QuizViewer.

Lemma countCorrect_from answers questions acc :
  fold_left (λ correct q, if isCorrect answers q then S correct else correct)
            questions acc
  = (acc + Spec.correctAnswers answers questions)%nat.
Proof.
  unfold Spec.correctAnswers.
  revert acc; induction questions as [|q rest IH]; intros acc; simpl.
  - lia.
  - rewrite IH. rewrite filter_cons. unfold isCorrect.
    case_bool_decide; case_decide; simpl; try done; lia.
Qed.

Lemma countCorrect_correctAnswers answers questions :
  countCorrect answers questions = Spec.correctAnswers answers questions.
Proof. unfold countCorrect. by rewrite countCorrect_from. Qed.

Lemma handleSubmit_score_finite (s : State) :
  questions s ≠ [] →
  ∃ q, score (handleSubmit s) = Finite q
       ∧ (q == Spec.scoreOf (answers s) (questions s))%Q.
Proof.
  intros Hne. unfold handleSubmit; simpl.
  destruct (divide_pos (countCorrect (answers s) (questions s))
                       (length (questions s))) as (q & -> & Hq).
  { by destruct (questions s). }
  exists (q * 100)%Q. split; [done|].
  rewrite Hq, countCorrect_correctAnswers. unfold Spec.scoreOf, Spec.ratio.
  unfold Qdiv. ring.
Qed.

Lemma handleFinish_handleSubmit (s : State) :
  questions s ≠ [] →
  handleFinish (handleSubmit s)
  = Qle_bool 70 (Spec.scoreOf (answers s) (questions s)).
Proof.
  intros Hne.
  destruct (handleSubmit_score_finite s Hne) as (q & Hs & Hq).
  unfold handleFinish. rewrite Hs. simpl. by apply Qle_bool_proper.
Qed.

(** The threshold on the counts themselves. *)
Lemma passes_iff_counts (s : State) :
  questions s ≠ [] →
  handleFinish (handleSubmit s) = true
  ↔ (70 * length (questions s)
     ≤ 100 * Spec.correctAnswers (answers s) (questions s))%nat.
Proof.
  intros Hne.
  rewrite (handleFinish_handleSubmit s Hne), Qle_bool_iff.
  unfold Spec.scoreOf, Spec.ratio.
  set (c := Spec.correctAnswers _ _). set (n := length _).
  assert (Hn : (0 < n)%nat) by (subst n; destruct (questions s); simpl; [done|lia]).
  assert (Hq : (100 * inject_Z (Z.of_nat c) / inject_Z (Z.of_nat n)
                == (100 * Z.of_nat c) # Z.to_pos (Z.of_nat n))%Q).
  { rewrite (Qmake_Qdiv (100 * Z.of_nat c)). rewrite Z2Pos.id by lia.
    rewrite inject_Z_mult. reflexivity. }
  rewrite Hq. unfold Qle; simpl. rewrite Z2Pos.id by lia. lia.
Qed.

(** Four questions, three right: 75, passed and recorded, also for a quiz
    whose [passingScore] is 90.  Two right: 50, failed, not recorded. *)
Example three_of_four_passes :
  let s := handleSubmit (Samples.loaded Samples.fourQuestions Samples.threeRight) in
  (∃ q, score s = Finite q ∧ (q == 75)%Q)
  ∧ handleFinish s = true
  ∧ Portal.currentQuiz Samples.takingQuiz = Some (Quiz.id Samples.quizStrict)
  ∧ Portal.completedQuizzes (Portal.finishQuiz s Samples.takingQuiz) = {["q"]}.
Proof.
  simpl. split; [eexists; split; [reflexivity | by vm_compute]|].
  by vm_compute.
Qed.

Example two_of_four_fails :
  let s := handleSubmit (Samples.loaded Samples.fourQuestions Samples.twoRight) in
  (∃ q, score s = Finite q ∧ (q == 50)%Q)
  ∧ handleFinish s = false
  ∧ Portal.completedQuizzes (Portal.finishQuiz s Samples.takingQuiz) = ∅.
Proof.
  simpl. split; [eexists; split; [reflexivity | by vm_compute]|].
  by vm_compute.
Qed.

End QuizFacts.

(* ===================================================================== *)
(** ** Quiz fetch: what the view shows afterwards *)
(* ===================================================================== *)

Section FetchFacts.
Import QuizViewer.

(** A rejected fetch and a body with a non-empty [error] string both end
    in the failed-to-load view. *)
Lemma fetchQuiz_failure_view (r : Response) (s : State) :
  match r with
  | Rejected => True
  | Json data => truthy (data_error data) = true
  end →
  render (fetchQuiz r s) = Return (FailedToLoadView "Failed to load quiz.").
Proof. destruct r as [|data]; simpl; [done|]. by intros ->. Qed.

(** A body without [error] whose question list is missing or empty
    leaves [error] unset, and rendering the question view throws. *)
Lemma fetchQuiz_no_questions (data : QuizData) :
  truthy (data_error data) = false →
  default [] (data_questions data) = [] →
  let s := fetchQuiz (Json data) initialState in
  loading s = false ∧ error s = None ∧ questions s = []
  ∧ render s = ThrowTypeError.
Proof. intros He Hq. simpl. rewrite He. simpl. by rewrite Hq. Qed.

(** C9, at the failing inputs [{questions: []}] and [{}]: the view is
    not the failed-to-load view; [error] stays [null] and the render
    dereferences [questions[0]], which is [undefined]. *)
Example fetchQuiz_empty_list_not_failed_view :
  let empty := fetchQuiz (Json (mkQuizData None (Some []))) initialState in
  let missing := fetchQuiz (Json (mkQuizData None None)) initialState in
  error empty = None ∧ render empty = ThrowTypeError
  ∧ error missing = None ∧ render missing = ThrowTypeError
  ∧ render empty ≠ Return (FailedToLoadView "Failed to load quiz.").
Proof. simpl. repeat split; discriminate. Qed.

End FetchFacts.

(* ===================================================================== *)
(** ** Progression: completion events and unlock predicates *)
(* ===================================================================== *)

Section ArrayFacts.
Context {A : Type}.
Implicit Types (p : A → bool) (arr : list A).

Lemma every_true_iff p arr :
  every p arr = true ↔ ∀ a, a ∈ arr → p a = true.
Proof.
  induction arr as [|a rest IH]; simpl.
  - split; [intros _ a Ha; inversion Ha | done].
  - destruct (p a) eqn:Hp.
    + rewrite IH. split.
      * intros H b Hb. apply elem_of_cons in Hb as [->|Hb]; auto.
      * intros H b Hb. apply H. by right.
    + split; [done|]. intros H. rewrite <- Hp. apply H. by left.
Qed.

(** [findIndex] gives [-1] when no element satisfies [p], and otherwise
    the least position whose element does. *)
Lemma findIndexFrom_cases p arr i :
  (findIndexFrom p arr i = -1 ∧ ∀ a, a ∈ arr → p a = false)
  ∨ ∃ k a, findIndexFrom p arr i = i + Z.of_nat k
           ∧ arr !! k = Some a ∧ p a = true
           ∧ ∀ j b, (j < k)%nat → arr !! j = Some b → p b = false.
Proof.
  revert i; induction arr as [|a rest IH]; intros i; simpl.
  - left. split; [done|]. intros a Ha. inversion Ha.
  - destruct (p a) eqn:Hp.
    + right. exists O, a. repeat split; [lia|done|]. intros j b Hj. lia.
    + destruct (IH (i + 1)) as [[Hm Hall]|(k & b & Hk & Hb & Hpb & Hmin)].
      * left. split; [done|]. intros b Hb.
        apply elem_of_cons in Hb as [->|Hb]; auto.
      * right. exists (S k), b. repeat split; [lia|done|done|].
        intros [|j] c Hj Hc; simpl in Hc; [congruence|].
        apply (Hmin j); [lia|done].
Qed.

Lemma findIndex_cases p arr :
  (findIndex p arr = -1 ∧ ∀ a, a ∈ arr → p a = false)
  ∨ ∃ k a, findIndex p arr = Z.of_nat k
           ∧ arr !! k = Some a ∧ p a = true
           ∧ ∀ j b, (j < k)%nat → arr !! j = Some b → p b = false.
Proof. apply (findIndexFrom_cases p arr 0). Qed.

Lemma findIndex_first p arr k a :
  arr !! k = Some a → p a = true →
  (∀ j b, (j < k)%nat → arr !! j = Some b → p b = false) →
  findIndex p arr = Z.of_nat k.
Proof.
  intros Hk Hp Hmin.
  destruct (findIndex_cases p arr) as [[_ Hall]|(k' & a' & -> & Hk' & Hp' & Hmin')].
  - apply list_elem_of_lookup_2 in Hk. rewrite (Hall a Hk) in Hp. done.
  - f_equal. destruct (lt_eq_lt_dec k k') as [[Hlt|Heq]|Hgt]; [|done|].
    + rewrite (Hmin' k a Hlt Hk) in Hp. done.
    + rewrite (Hmin k' a' Hgt Hk') in Hp'. done.
Qed.

Lemma index_of_nat arr (k : nat) : index arr (Z.of_nat k) = arr !! k.
Proof.
  unfold index. destruct (Z.ltb_spec (Z.of_nat k) 0); [lia|].
  by rewrite Nat2Z.id.
Qed.

Lemma index_negative arr k : k < 0 → index arr k = None.
Proof. intros Hk. unfold index. by destruct (Z.ltb_spec k 0); [|lia]. Qed.

End ArrayFacts.

Section CompletionFacts.
Import Portal.

(** C5. A failed quiz outcome leaves both completion sets as they were;
    a passed one adds the quiz id to the completed quizzes only; so the
    quiz id is in the set afterwards exactly when the outcome was a pass
    or it was there before. *)
Theorem handleQuizComplete_sets (quizId : string) (s : State) :
  (completedLessons (handleQuizComplete quizId false s) = completedLessons s
   ∧ completedQuizzes (handleQuizComplete quizId false s) = completedQuizzes s)
  ∧ (completedLessons (handleQuizComplete quizId true s) = completedLessons s
     ∧ completedQuizzes (handleQuizComplete quizId true s)
       = completedQuizzes s ∪ {[quizId]})
  ∧ ∀ passed,
      quizId ∈ completedQuizzes (handleQuizComplete quizId passed s)
      ↔ passed = true ∨ quizId ∈ completedQuizzes s.
Proof.
  repeat split; try done.
  - destruct passed; simpl; [by left | by right].
  - intros [->|Hin]; simpl; [set_solver|].
    destruct passed; simpl; set_solver.
Qed.

(** C6. The quiz of a module is unlocked if and only if the id of every
    lesson of the module is in the completed-lessons set; a module with
    no lessons has its quiz unlocked. *)
Theorem isQuizUnlocked_iff (completed : gset string) (m : CModule.t) :
  (isQuizUnlocked completed m = true
   ↔ ∀ lesson, lesson ∈ CModule.lessons m → Lesson.id lesson ∈ completed)
  ∧ ∀ id number title description icon quiz,
      isQuizUnlocked completed
        (CModule.mk id number title description icon [] quiz) = true.
Proof.
  split; [|done]. unfold isQuizUnlocked. rewrite every_true_iff.
  split; intros H lesson Hl; specialize (H lesson Hl).
  - by apply bool_decide_eq_true in H.
  - by apply bool_decide_eq_true.
Qed.

(** The unlock scenario of a module [L1, L2, L3] with a quiz. *)
Example unlock_chain :
  isLessonUnlocked ∅ Samples.lessonA Samples.moduleABC = Return true
  ∧ isLessonUnlocked ∅ Samples.lessonB Samples.moduleABC = Return false
  ∧ isLessonUnlocked {["a"]} Samples.lessonB Samples.moduleABC = Return true
  ∧ isLessonUnlocked {["a"]} Samples.lessonC Samples.moduleABC = Return false
  ∧ isLessonUnlocked {["a"; "b"]} Samples.lessonC Samples.moduleABC = Return true
  ∧ isQuizUnlocked {["a"; "b"]} Samples.moduleABC = false
  ∧ isQuizUnlocked {["a"; "b"; "c"]} Samples.moduleABC = true.
Proof. vm_compute. done. Qed.

End CompletionFacts.

Section UnlockFacts.
Import Portal.

Implicit Types (completed : gset string) (lesson : Lesson.t) (m : CModule.t).

(** The search predicate of [isLessonUnlocked]. *)
Local Abbreviation sameId lesson :=
  (λ l, String.eqb (Lesson.id l) (Lesson.id lesson)).

Lemma sameId_true lesson l :
  String.eqb (Lesson.id l) (Lesson.id lesson) = true
  ↔ Lesson.id l = Lesson.id lesson.
Proof. apply String.eqb_eq. Qed.

Lemma sameId_false lesson l :
  String.eqb (Lesson.id l) (Lesson.id lesson) = false
  ↔ Lesson.id l ≠ Lesson.id lesson.
Proof. apply String.eqb_neq. Qed.

(** When the first position carrying the lesson's id is [k], the result
    is [true] for [k = 0] and the completion of the lesson at [k - 1]
    otherwise. *)
Lemma isLessonUnlocked_at_first completed lesson m k :
  findIndex (sameId lesson) (CModule.lessons m) = Z.of_nat k →
  (∃ l, CModule.lessons m !! k = Some l) →
  isLessonUnlocked completed lesson m
  = Return match k with
           | O => true
           | S j => match CModule.lessons m !! j with
                    | Some previous =>
                        bool_decide (Lesson.id previous ∈ completed)
                    | None => false
                    end
           end.
Proof.
  intros Hidx [l Hl]. unfold isLessonUnlocked. rewrite Hidx.
  destruct k as [|j]; [done|].
  destruct (Z.eqb_spec (Z.of_nat (S j)) 0) as [|_]; [lia|].
  replace (Z.of_nat (S j) - 1) with (Z.of_nat j) by lia.
  rewrite index_of_nat.
  destruct (lookup_lt_is_Some_2 (CModule.lessons m) j) as [previous ->].
  { apply lookup_lt_Some in Hl. lia. }
  done.
Qed.

(** With pairwise distinct ids, a lesson of the module is found at its
    own position. *)
Lemma findIndex_own_position lesson m i :
  NoDup (Lesson.id <$> CModule.lessons m) →
  CModule.lessons m !! i = Some lesson →
  findIndex (sameId lesson) (CModule.lessons m) = Z.of_nat i.
Proof.
  intros Hnd Hi. apply (findIndex_first _ _ i lesson); [done| |].
  - by apply String.eqb_refl.
  - intros j b Hj Hb. apply sameId_false. intros Heq.
    assert (j = i); [|lia].
    apply (NoDup_lookup _ j i (Lesson.id lesson) Hnd);
      rewrite list_lookup_fmap; [rewrite Hb | rewrite Hi]; simpl; congruence.
Qed.

(** C1, as stated, fails on a module in which an id is repeated: the
    third lesson of [moduleDup] follows a completed lesson, yet the
    function answers from position 1, where its id first occurs. *)
Lemma unlockRule_fails_on_repeated_id : ¬ Spec.unlockRule.
Proof.
  intros H.
  assert (Hin : Samples.lessonB' ∈ CModule.lessons Samples.moduleDup)
    by (simpl; set_solver).
  destruct (H {["b"]} _ _ Hin) as [_ Hback].
  assert (Hrule : Spec.firstOrPredecessorDone {["b"]} Samples.lessonB'
                    Samples.moduleDup).
  { right. exists 1%nat, Samples.lessonB. simpl. set_solver. }
  specialize (Hback Hrule). vm_compute in Hback. discriminate.
Qed.

(** C1, amended. In a module whose lesson ids are pairwise distinct, a
    lesson of the module is unlocked if and only if it is the first of
    the list or the lesson just before it is completed; the function
    returns, and sets that agree on that one predecessor give the same
    answer. *)
Theorem isLessonUnlocked_distinct_ids completed lesson m i :
  NoDup (Lesson.id <$> CModule.lessons m) →
  CModule.lessons m !! i = Some lesson →
  (isLessonUnlocked completed lesson m = Return true
   ↔ Spec.firstOrPredecessorDone completed lesson m)
  ∧ (∃ b, isLessonUnlocked completed lesson m = Return b)
  ∧ ∀ completed',
      (∀ j previous, i = S j → CModule.lessons m !! j = Some previous →
         (Lesson.id previous ∈ completed ↔ Lesson.id previous ∈ completed')) →
      isLessonUnlocked completed' lesson m
      = isLessonUnlocked completed lesson m.
Proof.
  intros Hnd Hi.
  pose proof (findIndex_own_position lesson m i Hnd Hi) as Hidx.
  assert (Hunique : ∀ k, CModule.lessons m !! k = Some lesson → k = i).
  { intros k Hk.
    apply (NoDup_lookup _ k i (Lesson.id lesson) Hnd);
      rewrite list_lookup_fmap; [rewrite Hk | rewrite Hi]; done. }
  pose proof (λ c, isLessonUnlocked_at_first c lesson m i Hidx
                     (ex_intro _ lesson Hi)) as Hres.
  split; [|split].
  - rewrite Hres. unfold Spec.firstOrPredecessorDone.
    destruct i as [|j].
    + split; [intros _|done]. left.
      destruct (CModule.lessons m); simpl in *; congruence.
    + destruct (lookup_lt_is_Some_2 (CModule.lessons m) j) as [previous Hp].
      { apply lookup_lt_Some in Hi. lia. }
      rewrite Hp. split.
      * intros [= Hb]. apply bool_decide_eq_true in Hb.
        right. by exists j, previous.
      * intros [Hhead|(j' & previous' & Hl & Hp' & Hin)].
        -- assert (CModule.lessons m !! O = Some lesson) as H0
             by (destruct (CModule.lessons m); simpl in *; congruence).
           apply Hunique in H0. lia.
        -- apply Hunique in Hl. injection Hl as ->.
           rewrite Hp in Hp'. injection Hp' as ->.
           f_equal. by apply bool_decide_eq_true.
  - rewrite Hres. eauto.
  - intros completed' Hagree. rewrite !Hres.
    destruct i as [|j]; [done|].
    destruct (CModule.lessons m !! j) as [previous|] eqn:Hp; [|done].
    f_equal. apply bool_decide_ext. symmetry. by apply (Hagree j).
Qed.

Lemma isLessonUnlocked_distinct_ids_witness :
  (isLessonUnlocked {["a"]} Samples.lessonB Samples.moduleABC = Return true
   ↔ Spec.firstOrPredecessorDone {["a"]} Samples.lessonB Samples.moduleABC)
  ∧ (∃ b, isLessonUnlocked {["a"]} Samples.lessonB Samples.moduleABC = Return b)
  ∧ ∀ completed',
      (∀ j previous, 1%nat = S j →
         CModule.lessons Samples.moduleABC !! j = Some previous →
         (Lesson.id previous ∈ ({["a"]} : gset string)
          ↔ Lesson.id previous ∈ completed')) →
      isLessonUnlocked completed' Samples.lessonB Samples.moduleABC
      = isLessonUnlocked {["a"]} Samples.lessonB Samples.moduleABC.
Proof.
  apply (isLessonUnlocked_distinct_ids {["a"]} Samples.lessonB
           Samples.moduleABC 1).
  - apply (bool_decide_unpack _). vm_compute. exact I.
  - reflexivity.
Defined.

Lemma isLessonUnlocked_cases completed lesson m :
  let lessonIndex := findIndex (sameId lesson) (CModule.lessons m) in
  ((Lesson.id lesson ∉ (Lesson.id <$> CModule.lessons m))
   ∧ lessonIndex = -1
   ∧ index (CModule.lessons m) (lessonIndex - 1) = None
   ∧ isLessonUnlocked completed lesson m = ThrowTypeError)
  ∨ (Lesson.id lesson ∈ (Lesson.id <$> CModule.lessons m)
     ∧ 0 ≤ lessonIndex < Z.of_nat (length (CModule.lessons m))
     ∧ (0 < lessonIndex →
        is_Some (index (CModule.lessons m) (lessonIndex - 1)))
     ∧ ∃ b, isLessonUnlocked completed lesson m = Return b).
Proof.
  intros lessonIndex. subst lessonIndex.
  destruct (findIndex_cases (sameId lesson) (CModule.lessons m))
    as [[Hidx Hall]|(k & l & Hidx & Hk & Hp & Hmin)].
  - left. split.
    { intros Hin. apply list_elem_of_fmap in Hin as (l & Heq & Hl).
      specialize (Hall l Hl). simpl in Hall.
      apply sameId_false in Hall. congruence. }
    unfold isLessonUnlocked. rewrite Hidx.
    by rewrite index_negative by lia.
  - right. split.
    { apply list_elem_of_fmap. exists l. split.
      - symmetry. by apply sameId_true.
      - by apply list_elem_of_lookup_2 in Hk. }
    rewrite Hidx.
    pose proof (lookup_lt_Some _ _ _ Hk) as Hlt.
    split; [lia|]. split.
    + intros Hpos. replace (Z.of_nat k - 1) with (Z.of_nat (k - 1)) by lia.
      rewrite index_of_nat. apply lookup_lt_is_Some_2. lia.
    + rewrite (isLessonUnlocked_at_first completed lesson m k Hidx); eauto.
Qed.

(** C10. When the lesson's id occurs in the module, the index found is
    within the list, a positive index has a lesson before it, and the
    function returns a boolean.  When the id does not occur, the index is
    [-1], there is no element at [-2], and the function throws on
    [previousLesson.id]. *)
Theorem isLessonUnlocked_defined_iff_member completed lesson m :
  let lessonIndex := findIndex (sameId lesson) (CModule.lessons m) in
  (Lesson.id lesson ∈ (Lesson.id <$> CModule.lessons m) →
     0 ≤ lessonIndex < Z.of_nat (length (CModule.lessons m))
     ∧ (0 < lessonIndex →
        is_Some (index (CModule.lessons m) (lessonIndex - 1)))
     ∧ ∃ b, isLessonUnlocked completed lesson m = Return b)
  ∧ (Lesson.id lesson ∉ (Lesson.id <$> CModule.lessons m) →
     lessonIndex = -1
     ∧ index (CModule.lessons m) (lessonIndex - 1) = None
     ∧ isLessonUnlocked completed lesson m = ThrowTypeError).
Proof.
  intros lessonIndex.
  destruct (isLessonUnlocked_cases completed lesson m)
    as [(Hnot & ? & ? & ?)|(Hin & ? & ? & ?)].
  - split; [done|]. by intros _.
  - split; [by intros _|done].
Qed.

Lemma isLessonUnlocked_defined_iff_member_witness :
  (∃ b, isLessonUnlocked ∅ Samples.lessonB Samples.moduleABC = Return b)
  ∧ isLessonUnlocked ∅ Samples.lessonC Samples.moduleAB = ThrowTypeError.
Proof.
  split.
  - apply (isLessonUnlocked_defined_iff_member ∅ Samples.lessonB
             Samples.moduleABC).
    apply (bool_decide_unpack _). vm_compute. exact I.
  - apply (isLessonUnlocked_defined_iff_member ∅ Samples.lessonC
             Samples.moduleAB).
    apply (bool_decide_unpack _). vm_compute. exact I.
Defined.

(** The one caller, the lesson list of the training tab, maps over
    [module.lessons], so its calls never throw. *)
Lemma isLessonUnlocked_in_render completed m :
  Forall (λ lesson, ∃ b, isLessonUnlocked completed lesson m = Return b)
         (CModule.lessons m).
Proof.
  apply Forall_forall. intros lesson Hl.
  destruct (isLessonUnlocked_cases completed lesson m)
    as [(Hnot & _)|(_ & _ & _ & Hret)]; [|done].
  exfalso. apply Hnot, list_elem_of_fmap. eauto.
Qed.

End UnlockFacts.

(* ===================================================================== *)
(** ** Progression: total progress *)
(* ===================================================================== *)

Section ProgressFacts.
Import Portal.

Implicit Types (cl cq : gset string) (phases : list Phase.t).

Lemma countLessons_from cl (lessons : list Lesson.t) acc :
  fold_left
    (λ completedItems lesson,
       if bool_decide (Lesson.id lesson ∈ cl)
       then S completedItems else completedItems)
    lessons acc
  = (acc + length (filter (λ l, Lesson.id l ∈ cl) lessons))%nat.
Proof.
  revert acc; induction lessons as [|l rest IH]; intros acc; simpl.
  - lia.
  - rewrite IH, filter_cons.
    case_bool_decide; case_decide; simpl; try done; lia.
Qed.

Lemma countModules_from cl cq (modules : list CModule.t) c :
  fold_left (countModule cl cq) modules c
  = mkCounters
      (totalItems c
       + sum_list_with
           (λ m, length (CModule.lessons m)
                 + match CModule.quiz m with Some _ => 1 | None => 0 end)%nat
           modules)%nat
      (completedItems c
       + (length (filter (λ l, Lesson.id l ∈ cl) (modules ≫= CModule.lessons))
          + length (filter (λ q, Quiz.id q ∈ cq) (omap CModule.quiz modules))))%nat.
Proof.
  revert c; induction modules as [|m rest IH]; intros c.
  - destruct c; simpl. f_equal; lia.
  - assert (Hquiz : omap CModule.quiz (m :: rest)
                   = match CModule.quiz m with
                     | Some q => q :: omap CModule.quiz rest
                     | None => omap CModule.quiz rest
                     end) by reflexivity.
    rewrite Hquiz, bind_cons, filter_app, length_app. simpl fold_left.
    rewrite IH. unfold countModule. rewrite countLessons_from.
    simpl sum_list_with.
    destruct (CModule.quiz m) as [q|]; simpl.
    + rewrite filter_cons.
      case_bool_decide; case_decide; simpl; try done; f_equal; lia.
    + f_equal; lia.
Qed.

(** The two nested loops compute [total] and [done]. *)
Lemma countItems_from cl cq phases c :
  fold_left
    (λ c phase, fold_left (countModule cl cq) (Phase.modules phase) c)
    phases c
  = mkCounters (totalItems c + Spec.total phases)%nat
               (completedItems c + Spec.done phases cl cq)%nat.
Proof.
  unfold Spec.total, Spec.done, Spec.allLessons, Spec.allQuizzes, Spec.allModules.
  revert c; induction phases as [|phase rest IH]; intros c.
  - destruct c; simpl. f_equal; lia.
  - rewrite bind_cons, sum_list_with_app, bind_app, omap_app.
    rewrite !filter_app, !length_app.
    simpl fold_left. rewrite IH, countModules_from. simpl. f_equal; lia.
Qed.

Lemma countItems_spec phases cl cq :
  countItems phases cl cq
  = mkCounters (Spec.total phases) (Spec.done phases cl cq).
Proof. unfold countItems. by rewrite countItems_from. Qed.

(** The value returned, by cases on [total]. *)
Lemma getTotalProgress_value phases cl cq :
  getTotalProgress phases cl cq
  = match Spec.total phases with
    | O => Finite 0
    | S _ => Finite ((Z.of_nat (Spec.done phases cl cq)
                      # Pos.of_nat (Spec.total phases)) * 100)
    end.
Proof.
  unfold getTotalProgress. rewrite countItems_spec. simpl.
  by destruct (Spec.total phases).
Qed.

Lemma length_filter_mono {A} (P1 P2 : A → Prop)
    `{!∀ a, Decision (P1 a), !∀ a, Decision (P2 a)} (l : list A) :
  (∀ a, P1 a → P2 a) →
  (length (filter P1 l) ≤ length (filter P2 l))%nat.
Proof.
  intros Himp. induction l as [|a rest IH]; [done|].
  rewrite !filter_cons.
  destruct (decide (P1 a)) as [H1|H1], (decide (P2 a)) as [H2|H2];
    simpl; try lia.
  exfalso. by apply H2, Himp.
Qed.

Lemma done_mono phases cl cq cl' cq' :
  cl ⊆ cl' → cq ⊆ cq' →
  (Spec.done phases cl cq ≤ Spec.done phases cl' cq')%nat.
Proof.
  intros Hl Hq. unfold Spec.done.
  apply Nat.add_le_mono; apply length_filter_mono; set_solver.
Qed.

Lemma getTotalProgress_mono phases cl cq cl' cq' :
  cl ⊆ cl' → cq ⊆ cq' →
  number_le (getTotalProgress phases cl cq) (getTotalProgress phases cl' cq').
Proof.
  intros Hl Hq. rewrite !getTotalProgress_value.
  pose proof (done_mono phases cl cq cl' cq' Hl Hq) as Hdone.
  destruct (Spec.total phases) as [|t]; simpl.
  - apply Qle_refl.
  - apply Qmult_le_compat_r; [|done].
    unfold Qle; simpl. apply Z.mul_le_mono_nonneg_r; lia.
Qed.

Lemma handle_grows (s : State) (e : Event) :
  phases (handle s e) = phases s
  ∧ completedLessons s ⊆ completedLessons (handle s e)
  ∧ completedQuizzes s ⊆ completedQuizzes (handle s e).
Proof.
  destruct e as [lessonId|quizId [|]]; simpl; repeat split; set_solver.
Qed.

Lemma run_grows (events : list Event) (s : State) :
  phases (fold_left handle events s) = phases s
  ∧ completedLessons s ⊆ completedLessons (fold_left handle events s)
  ∧ completedQuizzes s ⊆ completedQuizzes (fold_left handle events s).
Proof.
  revert s; induction events as [|e rest IH]; intros s; simpl; [done|].
  destruct (IH (handle s e)) as (Hp & Hl & Hq).
  destruct (handle_grows s e) as (Hp' & Hl' & Hq').
  repeat split; [congruence | by etrans | by etrans].
Qed.

(** C7. For a fixed curriculum tree the progress of a pair of completion
    sets is at most the progress of any pair that contains it, and so the
    progress after any sequence of completion events is at least the
    progress before it. *)
Theorem getTotalProgress_monotone (s : State) (cl' cq' : gset string)
    (events : list Event) :
  completedLessons s ⊆ cl' → completedQuizzes s ⊆ cq' →
  number_le (progress s) (getTotalProgress (phases s) cl' cq')
  ∧ number_le (progress s) (progress (fold_left handle events s)).
Proof.
  intros Hl Hq. split.
  - by apply getTotalProgress_mono.
  - destruct (run_grows events s) as (Hp & Hl' & Hq').
    unfold progress. rewrite Hp. by apply getTotalProgress_mono.
Qed.

Lemma getTotalProgress_monotone_witness :
  number_le (progress Samples.takingQuiz)
            (getTotalProgress (phases Samples.takingQuiz) {["a"; "b"; "c"]} {["q"]})
  ∧ number_le (progress Samples.takingQuiz)
              (progress (fold_left handle
                           [QuizFinished "q" false; QuizFinished "q" true;
                            LessonCompleted "a"]
                           Samples.takingQuiz)).
Proof.
  apply (getTotalProgress_monotone Samples.takingQuiz {["a"; "b"; "c"]} {["q"]}).
  - apply (bool_decide_unpack _). vm_compute. exact I.
  - apply (bool_decide_unpack _). vm_compute. exact I.
Defined.

(** The scenario of a module [L1, L2] with a quiz: nothing completed gives
    0; both lessons give 2 of 3; the passed quiz gives 100. *)
Example progress_scenario :
  getTotalProgress [Samples.phaseAB] ∅ ∅ = Finite ((0 # 3) * 100)
  ∧ getTotalProgress [Samples.phaseAB] {["a"; "b"]} ∅ = Finite ((2 # 3) * 100)
  ∧ getTotalProgress [Samples.phaseAB] {["a"; "b"]} {["q"]}
    = Finite ((3 # 3) * 100).
Proof. vm_compute. done. Qed.

End ProgressFacts.

(* ===================================================================== *)
(** ** Landing scene: steps, facing and the reachable positions *)
(* ===================================================================== *)

Section MovementFacts.
Import Landing Movement.

Lemma applyKeys_locals keys s :
  applyKeys keys s
  = mkLocals
      (x (characterPos s)
       + 2 * (Z.b2z (held keys "ArrowRight" "d") - Z.b2z (held keys "ArrowLeft" "a")))
      (y (characterPos s)
       + 2 * (Z.b2z (held keys "ArrowDown" "s") - Z.b2z (held keys "ArrowUp" "w")))
      (held keys "ArrowUp" "w" || held keys "ArrowDown" "s"
       || held keys "ArrowLeft" "a" || held keys "ArrowRight" "d")
      (facing keys (direction s)).
Proof.
  unfold applyKeys, facing.
  destruct (held keys "ArrowUp" "w"), (held keys "ArrowDown" "s"),
    (held keys "ArrowLeft" "a"), (held keys "ArrowRight" "d");
    simpl; f_equal; lia.
Qed.

(** X1. A tick that ends walking has moved the actor by 2 * (right - left)
    horizontally and 2 * (down - up) vertically, so opposite keys cancel,
    and has turned it to the last held key in the order up, down, left,
    right; a tick that does not end walking leaves position and facing as
    they were. *)
Theorem moveCharacter_step obstacles portalZone keys s :
  let s' := moveCharacter obstacles portalZone keys s in
  characterPos s'
  = (if isWalking s'
     then mkPosition
            (x (characterPos s)
             + 2 * (Z.b2z (held keys "ArrowRight" "d")
                    - Z.b2z (held keys "ArrowLeft" "a")))
            (y (characterPos s)
             + 2 * (Z.b2z (held keys "ArrowDown" "s")
                    - Z.b2z (held keys "ArrowUp" "w")))
     else characterPos s)
  ∧ direction s' = (if isWalking s' then facing keys (direction s) else direction s).
Proof.
  simpl. unfold moveCharacter. rewrite applyKeys_locals. simpl.
  destruct (_ || _ || _ || _); [|done].
  by destruct (checkCollision _ _ _).
Qed.

Lemma moveCharacter_keeps_clear obstacles portalZone keys s :
  checkCollision obstacles (x (characterPos s)) (y (characterPos s)) = false →
  let s' := moveCharacter obstacles portalZone keys s in
  checkCollision obstacles (x (characterPos s')) (y (characterPos s')) = false.
Proof.
  intros Hclear. simpl. unfold moveCharacter.
  destruct (moved (applyKeys keys s)); [|done].
  by destruct (checkCollision obstacles (newX _) (newY _)) eqn:Hc.
Qed.

Lemma ticks_keep_checkCollision obstacles portalZone held s :
  checkCollision obstacles (x (characterPos s)) (y (characterPos s)) = false →
  let s' := ticks obstacles portalZone held s in
  checkCollision obstacles (x (characterPos s')) (y (characterPos s')) = false.
Proof.
  simpl. unfold ticks. revert s.
  induction held as [|keys rest IH]; intros s Hclear; [done|].
  simpl. apply IH. by apply moveCharacter_keeps_clear.
Qed.

(** X2. If the actor stands clear (inside the permitted rectangle, its box
    overlapping no obstacle), it stands clear after every sequence of
    ticks, whatever keys are held at each of them. *)
Theorem ticks_keep_clear obstacles portalZone (held : list (gset string)) s :
  checkCollision obstacles (x (characterPos s)) (y (characterPos s)) = false →
  let s' := ticks obstacles portalZone held s in
  Spec.inBounds (x (characterPos s')) (y (characterPos s'))
  ∧ Spec.overlapsNone obstacles (x (characterPos s')) (y (characterPos s')).
Proof.
  intros Hclear. simpl.
  pose proof (ticks_keep_checkCollision obstacles portalZone held s Hclear) as Hrun.
  apply checkCollision_false_iff in Hrun. tauto.
Qed.

Lemma ticks_keep_clear_witness :
  let s' := ticks obstacles portalZone
                  [{["ArrowDown"]}; {["s"; "d"]}; ∅; {["a"]}] initialState in
  Spec.inBounds (x (characterPos s')) (y (characterPos s'))
  ∧ Spec.overlapsNone obstacles (x (characterPos s')) (y (characterPos s')).
Proof.
  apply (ticks_keep_clear obstacles portalZone
           [{["ArrowDown"]}; {["s"; "d"]}; ∅; {["a"]}] initialState).
  vm_compute. reflexivity.
Defined.

(** In the scene of the component the first position is clear, so the
    actor never enters a tree, a bench or a bush and never leaves the
    permitted rectangle. *)
Lemma park_positions_clear (held : list (gset string)) :
  let s' := ticks obstacles portalZone held initialState in
  Spec.inBounds (x (characterPos s')) (y (characterPos s'))
  ∧ Spec.overlapsNone obstacles (x (characterPos s')) (y (characterPos s')).
Proof.
  simpl.
  pose proof (ticks_keep_checkCollision obstacles portalZone held
                initialState eq_refl) as Hrun.
  apply checkCollision_false_iff in Hrun. tauto.
Qed.

End MovementFacts.

(* ===================================================================== *)
(** ** Landing scene: the keyboard *)
(* ===================================================================== *)

Section KeyboardFacts.
Import Landing Movement Keyboard.

Local Arguments includes : simpl never.

Lemma includes_movementKeys key :
  includes movementKeys key = true
  ↔ key = "arrowup" ∨ key = "arrowdown" ∨ key = "arrowleft"
    ∨ key = "arrowright" ∨ key = "w" ∨ key = "a" ∨ key = "s" ∨ key = "d".
Proof.
  unfold includes, movementKeys; simpl.
  rewrite !orb_true_iff, !String.eqb_eq. intuition discriminate.
Qed.

Lemma keyName_in_keyNames key :
  includes movementKeys key = true → keyName key ∈ keyNames.
Proof.
  intros Hk. apply includes_movementKeys in Hk.
  unfold keyNames.
  destruct Hk as [->|[->|[->|[->|[->|[->|[->| ->]]]]]]]; simpl; set_solver.
Qed.

Lemma press_keeps_names showPrompt ks e :
  ks ⊆ keyNames → press showPrompt ks e ⊆ keyNames.
Proof.
  intros Hks. destruct e as [eKey|eKey]; simpl.
  - unfold handleKeyDown; simpl.
    destruct (includes movementKeys (toLowerCase eKey)) eqn:Hm; [|done].
    apply keyName_in_keyNames in Hm.
    apply union_subseteq. split; [done|]. by apply singleton_subseteq_l.
  - unfold handleKeyUp. by apply subseteq_difference_l.
Qed.

(** X3. Whatever keys are pressed and released, in whatever case,
    [keysPressed] only ever holds the eight names the tick looks for. *)
Theorem presses_keep_names showPrompt (events : list KeyEvent) :
  presses showPrompt events ∅ ⊆ keyNames.
Proof.
  unfold presses.
  assert (Hgen : ∀ ks, ks ⊆ keyNames →
            fold_left (press showPrompt) events ks ⊆ keyNames).
  { induction events as [|e rest IH]; intros ks Hks; [done|].
    simpl. by apply IH, press_keeps_names. }
  apply Hgen. set_solver.
Qed.

(** X4. Releasing a key undoes pressing it, also when the two events
    report the key in different case (Shift or Caps Lock changed in
    between): if the key was not held, the held set is as before. *)
Theorem keyup_undoes_keydown showPrompt (down up : string) (ks : gset string) :
  toLowerCase down = toLowerCase up →
  keyName (toLowerCase down) ∉ ks →
  handleKeyUp up (keysPressed (handleKeyDown showPrompt down ks)) = ks.
Proof.
  intros Hcase Hfresh. unfold handleKeyUp, handleKeyDown; simpl.
  rewrite <- Hcase. apply set_eq. intros k.
  rewrite elem_of_difference, elem_of_singleton.
  destruct (includes movementKeys (toLowerCase down));
    rewrite ?elem_of_union, ?elem_of_singleton; split.
  - by intros [[?|?] ?].
  - intros Hk. split; [by left | congruence].
  - by intros [? ?].
  - intros Hk. split; [done | congruence].
Qed.

Lemma keyup_undoes_keydown_witness :
  handleKeyUp "w" (keysPressed (handleKeyDown false "W" {["ArrowLeft"]}))
  = {["ArrowLeft"]}.
Proof.
  apply (keyup_undoes_keydown false "W" "w" {["ArrowLeft"]}).
  - reflexivity.
  - apply (bool_decide_unpack _). vm_compute. exact I.
Defined.

Lemma has_union (ks : gset string) n a :
  bool_decide (a ∈ ks ∪ {[n]}) = bool_decide (a ∈ ks) || String.eqb a n.
Proof.
  destruct (String.eqb_spec a n) as [->|Ha]; repeat case_bool_decide;
    simpl; try done; exfalso;
    rewrite elem_of_union, elem_of_singleton in *; tauto.
Qed.

Lemma held_union ks n a b :
  held (ks ∪ {[n]}) a b = held ks a b || String.eqb a n || String.eqb b n.
Proof.
  unfold held. rewrite !has_union.
  by destruct (bool_decide (a ∈ ks)), (bool_decide (b ∈ ks)),
       (String.eqb a n), (String.eqb b n).
Qed.

(** X5. A [keydown] makes the tick see the up direction held exactly when
    it was held before or the key is ArrowUp or w in any case; likewise for
    down, left and right.  No other key moves the actor. *)
Theorem keydown_direction showPrompt (eKey : string) (ks : gset string) :
  let ks' := keysPressed (handleKeyDown showPrompt eKey ks) in
  let key := toLowerCase eKey in
  held ks' "ArrowUp" "w" = held ks "ArrowUp" "w" || includes ["arrowup"; "w"] key
  ∧ held ks' "ArrowDown" "s"
    = held ks "ArrowDown" "s" || includes ["arrowdown"; "s"] key
  ∧ held ks' "ArrowLeft" "a"
    = held ks "ArrowLeft" "a" || includes ["arrowleft"; "a"] key
  ∧ held ks' "ArrowRight" "d"
    = held ks "ArrowRight" "d" || includes ["arrowright"; "d"] key.
Proof.
  simpl. destruct (includes movementKeys (toLowerCase eKey)) eqn:Hm.
  - rewrite !held_union. apply includes_movementKeys in Hm.
    destruct Hm as [->|[->|[->|[->|[->|[->|[->| ->]]]]]]]; simpl;
      rewrite ?orb_false_r; done.
  - unfold includes, movementKeys in *. simpl in *.
    rewrite !orb_false_iff in Hm.
    destruct Hm as (-> & -> & -> & -> & -> & -> & -> & -> & _).
    simpl. rewrite !orb_false_r. done.
Qed.

(** X6. A [keydown] that calls [onEnterPortal] found the prompt visible,
    is the Enter key, and leaves the held keys and the default action of
    the event alone. *)
Theorem enterPortal_needs_prompt showPrompt (eKey : string) (ks : gset string) :
  enterPortal (handleKeyDown showPrompt eKey ks) = true →
  showPrompt = true
  ∧ toLowerCase eKey = "enter"
  ∧ keysPressed (handleKeyDown showPrompt eKey ks) = ks
  ∧ preventDefault (handleKeyDown showPrompt eKey ks) = false.
Proof.
  unfold handleKeyDown; simpl. intros He.
  apply andb_true_iff in He as [Hk ->]. apply String.eqb_eq in Hk.
  rewrite Hk. done.
Qed.

Lemma enterPortal_needs_prompt_witness :
  true = true
  ∧ toLowerCase "Enter" = "enter"
  ∧ keysPressed (handleKeyDown true "Enter" {["w"]}) = {["w"]}
  ∧ preventDefault (handleKeyDown true "Enter" {["w"]}) = false.
Proof.
  apply (enterPortal_needs_prompt true "Enter" {["w"]}). reflexivity.
Defined.

Lemma held_empty a b : held ∅ a b = false.
Proof. reflexivity. Qed.

(** The locals of a tick at which exactly one stored name is held. *)
Lemma applyKeys_single key d s :
  includes movementKeys key = true → keyDirection key = Some d →
  applyKeys (∅ ∪ {[keyName key]}) s
  = mkLocals (x (stepTo d (characterPos s))) (y (stepTo d (characterPos s)))
             true d.
Proof.
  intros Hm Hd. apply includes_movementKeys in Hm.
  rewrite applyKeys_locals. unfold facing. rewrite !held_union, !held_empty.
  destruct Hm as [->|[->|[->|[->|[->|[->|[->| ->]]]]]]];
    injection Hd as <-; simpl; f_equal; lia.
Qed.

(** X23. With no key held before, one [keydown] followed by a tick moves
    the actor one step of 2 in the direction of the key (an arrow key or
    w, a, s, d, in any case) and turns it that way when the target is
    clear, leaves it where it is when the target is blocked, and does
    nothing for any other key. *)
Theorem keydown_then_tick obstacles portalZone showPrompt (eKey : string) s :
  let keys := keysPressed (handleKeyDown showPrompt eKey ∅) in
  let s' := moveCharacter obstacles portalZone keys s in
  match keyDirection (toLowerCase eKey) with
  | Some d =>
      let target := stepTo d (characterPos s) in
      if checkCollision obstacles (x target) (y target)
      then characterPos s' = characterPos s ∧ direction s' = direction s
           ∧ isWalking s' = false
      else characterPos s' = target ∧ direction s' = d ∧ isWalking s' = true
  | None =>
      characterPos s' = characterPos s ∧ direction s' = direction s
      ∧ isWalking s' = false ∧ Landing.showPrompt s' = Landing.showPrompt s
  end.
Proof.
  simpl. destruct (includes movementKeys (toLowerCase eKey)) eqn:Hm.
  - destruct (keyDirection (toLowerCase eKey)) as [d|] eqn:Hd.
    + unfold moveCharacter. rewrite (applyKeys_single _ d s Hm Hd). simpl.
      destruct (checkCollision obstacles _ _); simpl; [done|].
      by destruct (stepTo d (characterPos s)).
    + exfalso. apply includes_movementKeys in Hm.
      destruct Hm as [Hk|[Hk|[Hk|[Hk|[Hk|[Hk|[Hk|Hk]]]]]]];
        rewrite Hk in Hd; discriminate.
  - assert (Hnone : keyDirection (toLowerCase eKey) = None).
    { unfold keyDirection, includes, movementKeys in *. simpl in *.
      rewrite !orb_false_iff in Hm.
      destruct Hm as (-> & -> & -> & -> & -> & -> & -> & -> & _). done. }
    rewrite Hnone. done.
Qed.

End KeyboardFacts.

(* ===================================================================== *)
(** ** Quiz view: loading, scoring and the buttons *)
(* ===================================================================== *)

Section QuizSessionFacts.
Import QuizViewer QuizSession.

(** X7. After [fetchQuiz] the view is the failed-to-load view exactly when
    the fetch was rejected, the body carried a non-empty [error] string, or
    an error was already stored (the function never clears it); an empty
    [error] string does not count as a failure. *)
Theorem fetchQuiz_failed_iff (r : Response) (s : State) :
  (∃ message, render (fetchQuiz r s) = Return (FailedToLoadView message))
  ↔ r = Rejected
    ∨ (∃ data, r = Json data ∧ truthy (data_error data) = true)
    ∨ truthy (error s) = true.
Proof.
  destruct r as [|data]; simpl.
  - split; [by left | by eexists].
  - destruct (truthy (data_error data)) eqn:He; simpl.
    + split; [|by eexists]. intros _. right. left. by exists data.
    + unfold render; simpl. destruct (truthy (error s)) eqn:Hs.
      * split; [by right; right | by eexists].
      * split.
        -- intros [message Hm]. destruct (showResults s); [done|].
           by destruct (index _ _).
        -- intros [?|[(d & [= <-] & Hd)|?]]; congruence.
Qed.

Lemma length_filter_all {A} (P : A → Prop) `{!∀ a, Decision (P a)} (l : list A) :
  length (filter P l) = length l ↔ Forall P l.
Proof.
  induction l as [|a rest IH]; [by split; [constructor|]|].
  rewrite filter_cons, Forall_cons.
  pose proof (length_filter P rest) as Hle.
  destruct (decide (P a)); simpl.
  - rewrite <- IH. split; [intros [= ?]; by split | intros [_ ->]; done].
  - split; [lia | tauto].
Qed.

Lemma ratio_make (count total : nat) :
  (0 < total)%nat →
  (Spec.ratio count total == (100 * Z.of_nat count) # Pos.of_nat total)%Q.
Proof.
  intros Hpos. unfold Spec.ratio.
  rewrite (Qmake_Qdiv (100 * Z.of_nat count)), inject_Z_mult.
  destruct total as [|t]; [lia|].
  rewrite <- Pos.of_nat_succ. reflexivity.
Qed.

Lemma ratio_bounds (count total : nat) :
  (0 < total)%nat → (count ≤ total)%nat →
  (0 <= Spec.ratio count total)%Q ∧ (Spec.ratio count total <= 100)%Q
  ∧ ((Spec.ratio count total == 100)%Q ↔ count = total).
Proof.
  intros Hpos Hle. rewrite (ratio_make count total Hpos).
  unfold Qle, Qeq; simpl.
  assert (Hp : Z.pos (Pos.of_nat total) = Z.of_nat total).
  { destruct total as [|t]; [lia|]. by rewrite <- Pos.of_nat_succ. }
  rewrite Hp. repeat split; lia.
Qed.

(** X8. For a non-empty question list the submitted score is a number
    between 0 and 100, and it is 100 exactly when every question has its
    correct answer recorded. *)
Theorem handleSubmit_score_bounds (s : State) :
  questions s ≠ [] →
  ∃ q, score (handleSubmit s) = Finite q
       ∧ (0 <= q)%Q ∧ (q <= 100)%Q
       ∧ ((q == 100)%Q
          ↔ ∀ question, question ∈ questions s →
              answers s !! QuizQuestion.id question
              = Some (QuizQuestion.correctAnswer question)).
Proof.
  intros Hne.
  destruct (handleSubmit_score_finite s Hne) as (q & Hs & Hq).
  exists q. split; [done|]. rewrite Hq. unfold Spec.scoreOf.
  assert (Hpos : (0 < length (questions s))%nat)
    by (destruct (questions s); simpl; [done|lia]).
  pose proof (length_filter
                (λ q, answers s !! QuizQuestion.id q
                      = Some (QuizQuestion.correctAnswer q)) (questions s)) as Hle.
  destruct (ratio_bounds (Spec.correctAnswers (answers s) (questions s))
                         (length (questions s)) Hpos Hle) as (H0 & H100 & Heq).
  repeat split; try done.
  - intros H. apply Heq in H. apply length_filter_all in H.
    by apply Forall_forall.
  - intros H. apply Heq. apply length_filter_all. by apply Forall_forall.
Qed.

Lemma handleSubmit_score_bounds_witness :
  ∃ q, score (handleSubmit (Samples.loaded Samples.fourQuestions Samples.twoRight))
       = Finite q
       ∧ (0 <= q)%Q ∧ (q <= 100)%Q
       ∧ ((q == 100)%Q
          ↔ ∀ question, question ∈ Samples.fourQuestions →
              Samples.twoRight !! QuizQuestion.id question
              = Some (QuizQuestion.correctAnswer question)).
Proof.
  apply (handleSubmit_score_bounds
           (Samples.loaded Samples.fourQuestions Samples.twoRight)).
  simpl. discriminate.
Defined.

(** X9. Submitting an empty question list stores [NaN] (0 / 0), and
    finishing then reports a failed attempt, so nothing is recorded. *)
Theorem handleSubmit_empty (s : State) (portal : Portal.State) :
  questions s = [] →
  score (handleSubmit s) = NaN
  ∧ handleFinish (handleSubmit s) = false
  ∧ Portal.completedQuizzes (Portal.finishQuiz (handleSubmit s) portal)
    = Portal.completedQuizzes portal.
Proof.
  intros Hq. unfold handleSubmit, handleFinish, Portal.finishQuiz; simpl.
  rewrite Hq. simpl. split; [done|]. split; [done|].
  by destruct (Portal.currentQuiz portal).
Qed.

Lemma handleSubmit_empty_witness :
  score (handleSubmit (Samples.loaded [] ∅)) = NaN
  ∧ handleFinish (handleSubmit (Samples.loaded [] ∅)) = false
  ∧ Portal.completedQuizzes
      (Portal.finishQuiz (handleSubmit (Samples.loaded [] ∅)) Samples.takingQuiz)
    = Portal.completedQuizzes Samples.takingQuiz.
Proof.
  apply (handleSubmit_empty (Samples.loaded [] ∅) Samples.takingQuiz).
  reflexivity.
Defined.

End QuizSessionFacts.

Section QuizClickFacts.
Import QuizViewer QuizSession.

(** The index names a question of the list. *)
Local Abbreviation inRange s :=
  (0 ≤ currentQuestionIndex s < Z.of_nat (length (questions s))).

Lemma click_questions s c : questions (click s c) = questions s.
Proof.
  unfold click.
  destruct (loading s || truthy (error s)); [done|].
  destruct (showResults s).
  - destruct c; try done. by destruct (negb _).
  - destruct (index _ _); [|done].
    destruct c; simpl; try done.
    + by destruct (_ =? 0).
    + by destruct (_ =? _).
    + by destruct (_ && _).
Qed.

Lemma click_inRange s c : inRange s → inRange (click s c).
Proof.
  intros Hr. rewrite click_questions. unfold click.
  destruct (loading s || truthy (error s)); [done|].
  destruct (showResults s).
  - destruct c; try done. destruct (negb _); simpl; lia.
  - destruct (index _ _); [|done].
    destruct c; simpl; try done.
    + destruct (_ =? 0); simpl; lia.
    + destruct (_ =? _); simpl; lia.
    + by destruct (_ && _).
Qed.

Lemma inRange_render s : inRange s → render s ≠ ThrowTypeError.
Proof.
  intros Hr. unfold render.
  destruct (loading s); [done|]. destruct (truthy (error s)); [done|].
  destruct (showResults s); [done|].
  replace (currentQuestionIndex s)
    with (Z.of_nat (Z.to_nat (currentQuestionIndex s))) by lia.
  rewrite index_of_nat.
  destruct (lookup_lt_is_Some_2 (questions s) (Z.to_nat (currentQuestionIndex s)))
    as [q ->]; [lia|done].
Qed.

(** X10. Once the index names a question of the list, it does so after
    any sequence of clicks (Previous and Next clamp at both ends), the
    question list is never changed, and rendering never throws. *)
Theorem clicks_stay_in_range (s : State) (cs : list Click) :
  0 ≤ currentQuestionIndex s < Z.of_nat (length (questions s)) →
  let s' := clicks s cs in
  questions s' = questions s
  ∧ 0 ≤ currentQuestionIndex s' < Z.of_nat (length (questions s'))
  ∧ render s' ≠ ThrowTypeError.
Proof.
  intros Hr. simpl. unfold clicks.
  assert (Hrun : questions (fold_left click cs s) = questions s
                 ∧ inRange (fold_left click cs s)).
  { revert s Hr. induction cs as [|c rest IH]; intros s Hr; [done|].
    simpl. destruct (IH (click s c) (click_inRange s c Hr)) as [Hq Hi].
    split; [|done]. by rewrite Hq, click_questions. }
  destruct Hrun as [Hq Hi]. split; [done|]. split; [done|].
  by apply inRange_render.
Qed.

Lemma clicks_stay_in_range_witness :
  let s' := clicks (Samples.loaded Samples.fourQuestions ∅)
                   [ClickPrevious; ClickOption KeyA; ClickNext; ClickNext;
                    ClickNext; ClickNext; ClickSubmit] in
  questions s' = Samples.fourQuestions
  ∧ 0 ≤ currentQuestionIndex s' < Z.of_nat (length (questions s'))
  ∧ render s' ≠ ThrowTypeError.
Proof.
  apply (clicks_stay_in_range (Samples.loaded Samples.fourQuestions ∅)).
  simpl. lia.
Defined.

(** What holds of a state that shows results. *)
Local Abbreviation consistent s :=
  (showResults s = true → allAnswered s = true ∧ score s = percentage s).

Lemma click_consistent s c : consistent s → consistent (click s c).
Proof.
  intros Hs. unfold click.
  destruct (loading s || truthy (error s)); [done|].
  destruct (showResults s) eqn:Hshow.
  - specialize (Hs eq_refl). destruct c; try (by intros _).
    destruct (negb _); [simpl; discriminate | by intros _].
  - destruct (index _ _); [|by rewrite Hshow].
    destruct c; simpl; try (rewrite ?Hshow; discriminate).
    + destruct (_ =? 0); simpl; rewrite Hshow; discriminate.
    + destruct (_ =? _); simpl; rewrite Hshow; discriminate.
    + destruct (_ && allAnswered s) eqn:Hall; [|rewrite Hshow; discriminate].
      apply andb_true_iff in Hall as [_ Hall]. intros _. by split.
Qed.

Lemma allAnswered_recorded s question :
  allAnswered s = true → question ∈ questions s →
  inheritedProperty (QuizQuestion.id question) = false →
  ∃ a, answers s !! QuizQuestion.id question = Some a ∧ a ≠ "".
Proof.
  intros Hall Hq Hown. unfold allAnswered in Hall.
  rewrite every_true_iff in Hall. specialize (Hall question Hq).
  unfold truthyAt in Hall.
  destruct (answers s !! QuizQuestion.id question) as [a|]; [|congruence].
  exists a. split; [done|]. intros ->. done.
Qed.

(** X11. In a session that starts on the questions, whenever the results
    are on screen [allAnswered] holds of the recorded answers, so that
    every question whose id is not the name of a property inherited from
    [Object.prototype] has a non-empty answer recorded, and the score
    shown is the percentage of the recorded answers: Submit is the only
    way to the results, and it is disabled while [allAnswered] is false. *)
Theorem results_are_consistent (s : State) (cs : list Click) :
  showResults s = false →
  let s' := clicks s cs in
  showResults s' = true →
  allAnswered s' = true ∧ score s' = percentage s'
  ∧ ∀ question, question ∈ questions s' →
      inheritedProperty (QuizQuestion.id question) = false →
      ∃ a, answers s' !! QuizQuestion.id question = Some a ∧ a ≠ "".
Proof.
  intros Hstart. simpl. unfold clicks.
  assert (Hgen : ∀ s, consistent s → consistent (fold_left click cs s)).
  { induction cs as [|c rest IH]; intros s0 H0; [done|].
    simpl. by apply IH, click_consistent. }
  intros Hshow. destruct (Hgen s) as [Hall Hscore]; [|done|].
  { rewrite Hstart. discriminate. }
  split; [done|]. split; [done|].
  intros question Hq Hown. by apply allAnswered_recorded.
Qed.

Lemma results_are_consistent_witness :
  let s' := clicks (Samples.loaded [Samples.question "q1" "A"] ∅)
                   [ClickSubmit; ClickOption KeyB; ClickSubmit] in
  allAnswered s' = true ∧ score s' = percentage s'
  ∧ ∀ question, question ∈ questions s' →
      inheritedProperty (QuizQuestion.id question) = false →
      ∃ a, answers s' !! QuizQuestion.id question = Some a ∧ a ≠ "".
Proof.
  apply (results_are_consistent
           (Samples.loaded [Samples.question "q1" "A"] ∅)
           [ClickSubmit; ClickOption KeyB; ClickSubmit]).
  - reflexivity.
  - vm_compute. reflexivity.
Defined.

(** A question whose id is [constructor] reads as answered from the empty
    answer object, so Submit is enabled and shows the results with nothing
    recorded. *)
Example inherited_id_reads_answered :
  let s := Samples.loaded Samples.inheritedIdQuiz ∅ in
  allAnswered s = true
  ∧ showResults (click s ClickSubmit) = true
  ∧ answers (click s ClickSubmit) = ∅.
Proof. vm_compute. done. Qed.

(** X12. Try Again empties the answers and shows the first question.  If
    some question has an id that is not the name of a property inherited
    from [Object.prototype], [allAnswered] is then false and Submit does
    nothing until that question is answered again. *)
Theorem tryAgain_needs_answers (s : State) (question : QuizQuestion.t) :
  question ∈ questions s →
  inheritedProperty (QuizQuestion.id question) = false →
  answers (tryAgain s) = ∅
  ∧ currentQuestionIndex (tryAgain s) = 0
  ∧ allAnswered (tryAgain s) = false
  ∧ click (tryAgain s) ClickSubmit = tryAgain s.
Proof.
  intros Hq Hown.
  assert (Hall : allAnswered (tryAgain s) = false).
  { destruct (allAnswered (tryAgain s)) eqn:Hall; [|done].
    destruct (allAnswered_recorded (tryAgain s) question Hall Hq Hown)
      as (a & Ha & _).
    simpl in Ha. by rewrite lookup_empty in Ha. }
  repeat split; [done|].
  unfold click. rewrite Hall.
  destruct (loading _ || truthy _); [done|]. simpl.
  destruct (index _ _); [|done]. by rewrite andb_false_r.
Qed.

Lemma tryAgain_needs_answers_witness :
  let s := Samples.loaded Samples.fourQuestions Samples.twoRight in
  answers (tryAgain s) = ∅
  ∧ currentQuestionIndex (tryAgain s) = 0
  ∧ allAnswered (tryAgain s) = false
  ∧ click (tryAgain s) ClickSubmit = tryAgain s.
Proof.
  apply (tryAgain_needs_answers
           (Samples.loaded Samples.fourQuestions Samples.twoRight)
           (Samples.question "q1" "A")).
  - apply list_elem_of_here.
  - reflexivity.
Defined.

Lemma answer_others_kept (qs : list QuizQuestion.t) s k :
  k ∉ (QuizQuestion.id <$> qs) →
  answers (fold_left
             (λ s q, handleAnswer (QuizQuestion.id q)
                                  (QuizQuestion.correctAnswer q) s) qs s) !! k
  = answers s !! k.
Proof.
  revert s; induction qs as [|q rest IH]; intros s Hk; [done|].
  simpl in *. apply not_elem_of_cons in Hk as [Hne Hk].
  rewrite IH by done. simpl. by rewrite lookup_insert_ne.
Qed.

Lemma answer_each_correct (qs : list QuizQuestion.t) s q :
  NoDup (QuizQuestion.id <$> qs) → q ∈ qs →
  answers (fold_left
             (λ s q, handleAnswer (QuizQuestion.id q)
                                  (QuizQuestion.correctAnswer q) s) qs s)
    !! QuizQuestion.id q
  = Some (QuizQuestion.correctAnswer q).
Proof.
  revert s; induction qs as [|a rest IH]; intros s Hnd Hq; [by inversion Hq|].
  simpl in Hnd. apply NoDup_cons in Hnd as [Ha Hnd].
  apply elem_of_cons in Hq as [->|Hq]; simpl.
  - rewrite answer_others_kept by done. simpl. by rewrite lookup_insert_eq.
  - by apply IH.
Qed.

Lemma fold_handleAnswer_questions (qs : list QuizQuestion.t) s :
  questions (fold_left
               (λ s q, handleAnswer (QuizQuestion.id q)
                                    (QuizQuestion.correctAnswer q) s) qs s)
  = questions s.
Proof. revert s; induction qs as [|q rest IH]; intros s; [done|]. simpl. by rewrite IH. Qed.

(** X13. When the question ids are pairwise distinct, answering every
    question with its correct answer and submitting gives the score 100
    and a passed attempt. *)
Theorem answerCorrectly_passes (s : State) :
  questions s ≠ [] →
  NoDup (QuizQuestion.id <$> questions s) →
  (∃ q, score (handleSubmit (answerCorrectly s)) = Finite q ∧ (q == 100)%Q)
  ∧ handleFinish (handleSubmit (answerCorrectly s)) = true.
Proof.
  intros Hne Hnd.
  assert (Hqs : questions (answerCorrectly s) = questions s)
    by apply fold_handleAnswer_questions.
  assert (Hne' : questions (answerCorrectly s) ≠ []) by by rewrite Hqs.
  destruct (handleSubmit_score_finite _ Hne') as (q & Hscore & Hq).
  assert (H100 : (q == 100)%Q).
  { rewrite Hq. unfold Spec.scoreOf. rewrite Hqs.
    assert (Hpos : (0 < length (questions s))%nat)
      by (destruct (questions s); simpl; [done|lia]).
    apply ratio_bounds; [done|apply length_filter|].
    apply length_filter_all, Forall_forall. intros question Hin.
    by apply answer_each_correct. }
  split; [by exists q|].
  unfold handleFinish. rewrite Hscore. simpl.
  apply Qle_bool_iff. rewrite H100. discriminate.
Qed.

Lemma answerCorrectly_passes_witness :
  let s := Samples.loaded Samples.fourQuestions Samples.twoRight in
  (∃ q, score (handleSubmit (answerCorrectly s)) = Finite q ∧ (q == 100)%Q)
  ∧ handleFinish (handleSubmit (answerCorrectly s)) = true.
Proof.
  apply (answerCorrectly_passes
           (Samples.loaded Samples.fourQuestions Samples.twoRight)).
  - simpl. discriminate.
  - apply (bool_decide_unpack _). vm_compute. exact I.
Defined.

End QuizClickFacts.

(* ===================================================================== *)
(** ** Lesson view *)
(* ===================================================================== *)

Section LessonViewerFacts.
Import LessonViewer.

(** X14. After [fetchLesson] the content view, with its Mark as Complete
    button, is shown exactly when the fetch returned a body without a
    non-empty [error] string and no error was stored before; it then has
    one rendered block per content entry, and none at all when [content]
    is missing from the body. *)
Theorem fetchLesson_content_iff (r : Response) (s : State) (blocks : list Block) :
  render (fetchLesson r s) = ContentView blocks
  ↔ ∃ data, r = Json data
            ∧ truthy (data_error data) = false
            ∧ truthy (error s) = false
            ∧ blocks = renderBlock <$> default [] (data_content data).
Proof.
  destruct r as [|data]; simpl.
  - split; [done|]. by intros (data & ? & _).
  - destruct (truthy (data_error data)) eqn:He; simpl.
    + split; [done|]. intros (d & [= <-] & Hd & _). congruence.
    + unfold render; simpl. destruct (truthy (error s)) eqn:Hs.
      * split; [done|]. by intros (d & _ & _ & ? & _).
      * split.
        -- intros [= <-]. by exists data.
        -- intros (d & [= <-] & _ & _ & ->). done.
Qed.

End LessonViewerFacts.

(* ===================================================================== *)
(** ** Progression: bounds, completion and unlocking *)
(* ===================================================================== *)

Section ProgressBoundsFacts.
Import Portal.

Implicit Types (cl cq : gset string) (phases : list Phase.t).

Lemma weight_sum (modules : list CModule.t) :
  sum_list_with
    (λ m, length (CModule.lessons m)
          + match CModule.quiz m with Some _ => 1 | None => 0 end)%nat
    modules
  = (length (modules ≫= CModule.lessons) + length (omap CModule.quiz modules))%nat.
Proof.
  induction modules as [|m rest IH]; [done|].
  assert (Hquiz : omap CModule.quiz (m :: rest)
                  = match CModule.quiz m with
                    | Some q => q :: omap CModule.quiz rest
                    | None => omap CModule.quiz rest
                    end) by reflexivity.
  rewrite Hquiz, bind_cons, length_app. simpl sum_list_with. rewrite IH.
  destruct (CModule.quiz m); simpl; lia.
Qed.

Lemma total_count phases :
  Spec.total phases
  = (length (Spec.allLessons phases) + length (Spec.allQuizzes phases))%nat.
Proof. apply weight_sum. Qed.

Lemma done_le_total phases cl cq :
  (Spec.done phases cl cq ≤ Spec.total phases)%nat.
Proof.
  rewrite total_count. unfold Spec.done.
  apply Nat.add_le_mono; apply length_filter.
Qed.

Lemma done_eq_total phases cl cq :
  Spec.done phases cl cq = Spec.total phases
  ↔ Forall (λ l, Lesson.id l ∈ cl) (Spec.allLessons phases)
    ∧ Forall (λ q, Quiz.id q ∈ cq) (Spec.allQuizzes phases).
Proof.
  rewrite total_count. unfold Spec.done.
  rewrite <- (length_filter_all (λ l, Lesson.id l ∈ cl)).
  rewrite <- (length_filter_all (λ q, Quiz.id q ∈ cq)).
  pose proof (length_filter (λ l, Lesson.id l ∈ cl) (Spec.allLessons phases)).
  pose proof (length_filter (λ q, Quiz.id q ∈ cq) (Spec.allQuizzes phases)).
  lia.
Qed.

Lemma pos_of_nat_Z (n : nat) : (0 < n)%nat → Z.pos (Pos.of_nat n) = Z.of_nat n.
Proof. destruct n as [|n]; [lia|]. intros _. by rewrite <- Pos.of_nat_succ. Qed.

(** X15. The progress is always a number between 0 and 100. *)
Theorem getTotalProgress_bounds phases cl cq :
  ∃ q, getTotalProgress phases cl cq = Finite q ∧ (0 <= q)%Q ∧ (q <= 100)%Q.
Proof.
  rewrite getTotalProgress_value.
  pose proof (done_le_total phases cl cq) as Hle.
  destruct (Spec.total phases) as [|t] eqn:Ht.
  - exists 0%Q. by repeat split.
  - pose proof (pos_of_nat_Z (S t) ltac:(lia)) as Hp.
    set (p := Pos.of_nat (S t)) in *. clearbody p.
    eexists; split; [reflexivity|].
    unfold Qle; simpl. split; lia.
Qed.

Lemma isModuleComplete_iff cl cq (m : CModule.t) :
  isModuleComplete cl cq m = true
  ↔ (∀ lesson, lesson ∈ CModule.lessons m → Lesson.id lesson ∈ cl)
    ∧ (∀ quiz, CModule.quiz m = Some quiz → Quiz.id quiz ∈ cq).
Proof.
  unfold isModuleComplete. rewrite andb_true_iff, every_true_iff.
  split; intros [Hl Hq]; split.
  - intros l Hlm. specialize (Hl l Hlm). by apply bool_decide_eq_true in Hl.
  - intros q Hqm. rewrite Hqm in Hq. by apply bool_decide_eq_true in Hq.
  - intros l Hlm. apply bool_decide_eq_true. by apply Hl.
  - destruct (CModule.quiz m) as [q|]; [|done].
    apply bool_decide_eq_true. by apply Hq.
Qed.

Lemma elem_of_allModules phases (m : CModule.t) :
  m ∈ Spec.allModules phases
  ↔ ∃ phase, phase ∈ phases ∧ m ∈ Phase.modules phase.
Proof.
  unfold Spec.allModules. rewrite list_elem_of_bind.
  split; intros (phase & ? & ?); by exists phase.
Qed.

Lemma elem_of_allLessons phases (l : Lesson.t) :
  l ∈ Spec.allLessons phases
  ↔ ∃ m, m ∈ Spec.allModules phases ∧ l ∈ CModule.lessons m.
Proof.
  unfold Spec.allLessons. rewrite list_elem_of_bind.
  split; intros (m & ? & ?); by exists m.
Qed.

Lemma elem_of_allQuizzes phases (q : Quiz.t) :
  q ∈ Spec.allQuizzes phases
  ↔ ∃ m, m ∈ Spec.allModules phases ∧ CModule.quiz m = Some q.
Proof. unfold Spec.allQuizzes. by rewrite list_elem_of_omap. Qed.

(** X16. In a tree with at least one lesson or quiz, the progress is 100
    exactly when every module of every phase is complete. *)
Theorem getTotalProgress_full_iff phases cl cq :
  Spec.total phases ≠ O →
  (∃ q, getTotalProgress phases cl cq = Finite q ∧ (q == 100)%Q)
  ↔ ∀ phase module, phase ∈ phases → module ∈ Phase.modules phase →
      isModuleComplete cl cq module = true.
Proof.
  intros Hne. rewrite getTotalProgress_value.
  destruct (Spec.total phases) as [|t] eqn:Ht; [done|].
  assert (Hq : (∃ q, Finite ((Z.of_nat (Spec.done phases cl cq)
                               # Pos.of_nat (S t)) * 100) = Finite q
                     ∧ (q == 100)%Q)
               ↔ Spec.done phases cl cq = S t).
  { pose proof (pos_of_nat_Z (S t) ltac:(lia)) as Hp.
    set (p := Pos.of_nat (S t)) in *. clearbody p.
    split.
    - intros (q & [= <-] & Hq). revert Hq. unfold Qeq; simpl. lia.
    - intros Hd. eexists; split; [reflexivity|]. unfold Qeq; simpl. lia. }
  rewrite Hq, <- Ht, done_eq_total, !Forall_forall.
  split.
  - intros [Hl Hquiz] phase m Hp Hm. apply isModuleComplete_iff.
    assert (Hin : m ∈ Spec.allModules phases)
      by (apply elem_of_allModules; eauto).
    split.
    + intros l Hlm. apply Hl, elem_of_allLessons. eauto.
    + intros q Hqm. apply Hquiz, elem_of_allQuizzes. eauto.
  - intros Hall. split.
    + intros l Hl. apply elem_of_allLessons in Hl as (m & Hm & Hlm).
      apply elem_of_allModules in Hm as (phase & Hp & Hm).
      by apply (proj1 (isModuleComplete_iff cl cq m) (Hall phase m Hp Hm)).
    + intros q Hqz. apply elem_of_allQuizzes in Hqz as (m & Hm & Hqm).
      apply elem_of_allModules in Hm as (phase & Hp & Hm).
      by apply (proj1 (isModuleComplete_iff cl cq m) (Hall phase m Hp Hm)).
Qed.

Lemma getTotalProgress_full_iff_witness :
  (∃ q, getTotalProgress [Samples.phaseAB] {["a"; "b"]} {["q"]} = Finite q
        ∧ (q == 100)%Q)
  ↔ ∀ phase module, phase ∈ [Samples.phaseAB] → module ∈ Phase.modules phase →
      isModuleComplete {["a"; "b"]} {["q"]} module = true.
Proof.
  apply (getTotalProgress_full_iff [Samples.phaseAB] {["a"; "b"]} {["q"]}).
  vm_compute. discriminate.
Defined.

End ProgressBoundsFacts.

Section UnlockingFacts.
Import Portal.

Implicit Types (cl cq : gset string) (lesson : Lesson.t) (m : CModule.t).

(** X17. Completions never lock anything again: with larger completion
    sets an unlocked lesson stays unlocked, an unlocked quiz stays
    unlocked and a complete module stays complete. *)
Theorem unlocks_are_monotone cl cl' cq cq' lesson m :
  cl ⊆ cl' → cq ⊆ cq' →
  (isLessonUnlocked cl lesson m = Return true →
   isLessonUnlocked cl' lesson m = Return true)
  ∧ (isQuizUnlocked cl m = true → isQuizUnlocked cl' m = true)
  ∧ (isModuleComplete cl cq m = true → isModuleComplete cl' cq' m = true).
Proof.
  intros Hl Hq. split; [|split].
  - unfold isLessonUnlocked. destruct (_ =? 0); [done|].
    destruct (index _ _) as [previous|]; [|done].
    intros [= Hp]. apply bool_decide_eq_true in Hp.
    f_equal. apply bool_decide_eq_true. by apply Hl.
  - unfold isQuizUnlocked. rewrite !every_true_iff.
    intros H l Hlm. specialize (H l Hlm). apply bool_decide_eq_true in H.
    apply bool_decide_eq_true. by apply Hl.
  - rewrite !isModuleComplete_iff. intros [H1 H2]. split.
    + intros l Hlm. by apply Hl, H1.
    + intros q Hqm. by apply Hq, H2.
Qed.

Lemma unlocks_are_monotone_witness :
  (isLessonUnlocked {["a"]} Samples.lessonB Samples.moduleAB = Return true →
   isLessonUnlocked {["a"; "b"]} Samples.lessonB Samples.moduleAB = Return true)
  ∧ (isQuizUnlocked {["a"]} Samples.moduleAB = true →
     isQuizUnlocked {["a"; "b"]} Samples.moduleAB = true)
  ∧ (isModuleComplete {["a"]} ∅ Samples.moduleAB = true →
     isModuleComplete {["a"; "b"]} {["q"]} Samples.moduleAB = true).
Proof.
  apply (unlocks_are_monotone {["a"]} {["a"; "b"]} ∅ {["q"]}
           Samples.lessonB Samples.moduleAB).
  - apply (bool_decide_unpack _). vm_compute. exact I.
  - apply (bool_decide_unpack _). vm_compute. exact I.
Defined.

(** X18. Recording a lesson twice is the same as recording it once, and
    the order in which two lessons are recorded does not matter. *)
Theorem handleLessonComplete_idempotent (a b : string) (s : State) :
  handleLessonComplete a (handleLessonComplete a s) = handleLessonComplete a s
  ∧ handleLessonComplete a (handleLessonComplete b s)
    = handleLessonComplete b (handleLessonComplete a s).
Proof.
  unfold handleLessonComplete; simpl. split; f_equal.
  - by rewrite <- (assoc_L (∪)), (idemp_L (∪)).
  - by rewrite <- !(assoc_L (∪)), (comm_L (∪) {[b]}).
Qed.

(** X19. In a module whose lesson ids are pairwise distinct, recording a
    lesson as completed unlocks the lesson right after it. *)
Theorem completing_unlocks_next (s : State) m (i : nat) lesson next :
  NoDup (Lesson.id <$> CModule.lessons m) →
  CModule.lessons m !! i = Some lesson →
  CModule.lessons m !! S i = Some next →
  isLessonUnlocked
    (completedLessons (handleLessonComplete (Lesson.id lesson) s)) next m
  = Return true.
Proof.
  intros Hnd Hi Hn.
  rewrite (isLessonUnlocked_at_first _ next m (S i));
    [|by apply findIndex_own_position|by exists next].
  rewrite Hi. f_equal. apply bool_decide_eq_true. simpl.
  apply elem_of_union_r. by apply elem_of_singleton.
Qed.

Lemma completing_unlocks_next_witness :
  isLessonUnlocked
    (completedLessons
       (handleLessonComplete (Lesson.id Samples.lessonB) Samples.takingQuiz))
    Samples.lessonC Samples.moduleABC
  = Return true.
Proof.
  apply (completing_unlocks_next Samples.takingQuiz Samples.moduleABC 1
           Samples.lessonB Samples.lessonC).
  - apply (bool_decide_unpack _). vm_compute. exact I.
  - reflexivity.
  - reflexivity.
Defined.

Lemma recorded_after_all (ids : list string) (s : State) (k : string) :
  k ∈ completedLessons s ∨ k ∈ ids →
  k ∈ completedLessons (fold_left (λ s i, handleLessonComplete i s) ids s).
Proof.
  revert s; induction ids as [|i rest IH]; intros s [Hk|Hk]; simpl.
  - done.
  - by inversion Hk.
  - apply IH. left. simpl. by apply elem_of_union_l.
  - apply IH. apply elem_of_cons in Hk as [->|Hk]; [left|by right].
    simpl. apply elem_of_union_r. by apply elem_of_singleton.
Qed.

(** X20. Once every lesson of a module has been recorded as completed, in
    any order and with any other completions in between, the quiz of the
    module is unlocked; a module without a quiz is then complete. *)
Theorem completing_all_unlocks_quiz (s : State) m (ids : list string) :
  (∀ lesson, lesson ∈ CModule.lessons m → Lesson.id lesson ∈ ids) →
  let s' := fold_left (λ s i, handleLessonComplete i s) ids s in
  isQuizUnlocked (completedLessons s') m = true
  ∧ (CModule.quiz m = None →
     isModuleComplete (completedLessons s') (completedQuizzes s') m = true).
Proof.
  intros Hall. simpl.
  assert (Hin : ∀ lesson, lesson ∈ CModule.lessons m →
            Lesson.id lesson
            ∈ completedLessons (fold_left (λ s i, handleLessonComplete i s) ids s)).
  { intros lesson Hl. apply recorded_after_all. right. by apply Hall. }
  split.
  - unfold isQuizUnlocked. apply every_true_iff. intros lesson Hl.
    apply bool_decide_eq_true. by apply Hin.
  - intros Hnone. apply isModuleComplete_iff. split; [done|].
    intros quiz Hq. congruence.
Qed.

Lemma completing_all_unlocks_quiz_witness :
  let s' := fold_left (λ s i, handleLessonComplete i s) ["b"; "x"; "a"]
                      (Navigation.start [Samples.phaseAB]) in
  isQuizUnlocked (completedLessons s') Samples.moduleAB = true
  ∧ (CModule.quiz Samples.moduleAB = None →
     isModuleComplete (completedLessons s') (completedQuizzes s')
       Samples.moduleAB = true).
Proof.
  apply (completing_all_unlocks_quiz (Navigation.start [Samples.phaseAB])
           Samples.moduleAB ["b"; "x"; "a"]).
  intros lesson Hl. simpl in Hl.
  apply elem_of_cons in Hl as [->|Hl];
    [apply (bool_decide_unpack _); vm_compute; exact I|].
  apply elem_of_cons in Hl as [->|Hl];
    [apply (bool_decide_unpack _); vm_compute; exact I|].
  by inversion Hl.
Defined.

End UnlockingFacts.

(* ===================================================================== *)
(** ** Progression: what a session can reach *)
(* ===================================================================== *)

Section NavigationFacts.
Import Portal Navigation.

Implicit Types (s : State) (a : Action) (m : CModule.t).

Lemma truthy_Some (o : option string) :
  truthy o = true → ∃ k, o = Some k ∧ k ≠ "".
Proof.
  destruct o as [k|]; [|done]. simpl. intros Hk. exists k. split; [done|].
  intros ->. done.
Qed.

(** The state after [setCurrentLesson(lesson.id)] and after
    [setCurrentQuiz(module.quiz.id)]. *)
Local Abbreviation withLesson s k :=
  (mkState (phases s) (completedLessons s) (completedQuizzes s)
           (Some k) (currentQuiz s)).
Local Abbreviation withQuiz s k :=
  (mkState (phases s) (completedLessons s) (completedQuizzes s)
           (currentLesson s) (Some k)).

(** Every action on screen returns, and does one of seven things. *)
Lemma act_cases s a :
  onScreen (phases s) a →
  ∃ s', act s a = Return s'
    ∧ (s' = s
       ∨ (∃ lesson m,
            m ∈ Spec.allModules (phases s) ∧ lesson ∈ CModule.lessons m
            ∧ truthy (currentLesson s) = false ∧ truthy (currentQuiz s) = false
            ∧ isLessonUnlocked (completedLessons s) lesson m = Return true
            ∧ s' = withLesson s (Lesson.id lesson))
       ∨ (∃ m quiz,
            m ∈ Spec.allModules (phases s) ∧ CModule.quiz m = Some quiz
            ∧ truthy (currentLesson s) = false ∧ truthy (currentQuiz s) = false
            ∧ isQuizUnlocked (completedLessons s) m = true
            ∧ s' = withQuiz s (Quiz.id quiz))
       ∨ (∃ k, currentLesson s = Some k ∧ k ≠ ""
               ∧ s' = handleLessonComplete k s)
       ∨ s' = closeLesson s
       ∨ (∃ k passed, currentQuiz s = Some k ∧ k ≠ ""
                      ∧ truthy (currentLesson s) = false
                      ∧ s' = handleQuizComplete k passed s)
       ∨ s' = closeQuiz s).
Proof.
  intros Hon. unfold act, view.
  destruct (truthy (currentLesson s)) eqn:Hl.
  { destruct (truthy_Some _ Hl) as (k & Hk & Hne). rewrite Hk. simpl.
    destruct a; eexists; (split; [reflexivity|]); eauto 10. }
  destruct (truthy (currentQuiz s)) eqn:Hq.
  { destruct (truthy_Some _ Hq) as (k & Hk & Hne). rewrite Hk. simpl.
    destruct a; eexists; (split; [reflexivity|]); eauto 12. }
  destruct a as [lesson m|m| | |passed|]; try (by eexists; split; [reflexivity|left]).
  - destruct Hon as [Hm Hlesson]. apply elem_of_allModules in Hm.
    unfold clickLesson.
    destruct (isLessonUnlocked_cases (completedLessons s) lesson m)
      as [(Hnot & _)|(_ & _ & _ & b & Hb)].
    { exfalso. apply Hnot, list_elem_of_fmap. eauto. }
    rewrite Hb. eexists; split; [reflexivity|].
    destruct b; simpl; [|by left].
    destruct (bool_decide _); simpl; [by left|].
    right; left. exists lesson, m. done.
  - simpl in Hon. apply elem_of_allModules in Hon.
    unfold clickQuiz. eexists; split; [reflexivity|].
    destruct (CModule.quiz m) as [quiz|] eqn:Hquiz; [|by left].
    destruct (isQuizUnlocked _ m) eqn:Hu; simpl; [|by left].
    destruct (bool_decide _); simpl; [by left|].
    right; right; left. exists m, quiz. done.
Qed.

Lemma act_phases s a s' : act s a = Return s' → phases s' = phases s.
Proof.
  unfold act, clickLesson, clickQuiz.
  destruct (view s), a; try (by intros [= <-]).
  - destruct (isLessonUnlocked _ _ _) as [b|]; [|done].
    intros [= <-]. by destruct (_ && _).
  - intros [= <-]. destruct (CModule.quiz _); [|done]. by destruct (_ && _).
Qed.

(** What the session keeps whatever the tree is: only ids of the tree are
    stored, never the empty string as a completion, and at most one
    viewer is open. *)
Local Abbreviation tidy s :=
  ((∀ k, k ∈ completedLessons s →
      k ≠ "" ∧ ∃ lesson, lesson ∈ Spec.allLessons (phases s) ∧ Lesson.id lesson = k)
   ∧ (∀ k, k ∈ completedQuizzes s →
        k ≠ "" ∧ ∃ quiz, quiz ∈ Spec.allQuizzes (phases s) ∧ Quiz.id quiz = k)
   ∧ (∀ k, currentLesson s = Some k →
        ∃ lesson, lesson ∈ Spec.allLessons (phases s) ∧ Lesson.id lesson = k)
   ∧ (∀ k, currentQuiz s = Some k →
        ∃ quiz, quiz ∈ Spec.allQuizzes (phases s) ∧ Quiz.id quiz = k)
   ∧ (truthy (currentLesson s) && truthy (currentQuiz s) = false)).

Lemma act_tidy s a s' :
  onScreen (phases s) a → act s a = Return s' → tidy s → tidy s'.
Proof.
  intros Hon Hact (Hcl & Hcq & Hl & Hq & Hone).
  destruct (act_cases s a Hon) as (s1 & Hact1 & Hcase).
  rewrite Hact in Hact1. injection Hact1 as <-.
  destruct Hcase as [->|[(lesson & m & Hm & Hlm & Hnl & Hnq & _ & ->)
    |[(m & quiz & Hm & Hquiz & Hnl & Hnq & _ & ->)
    |[(k & Hk & Hne & ->)|[->|[(k & passed & Hk & Hne & Hnl & ->)| ->]]]]]];
    simpl; refine (conj _ (conj _ (conj _ (conj _ _)))); simpl; try done.
  - intros k [= <-]. exists lesson. split; [|done].
    apply elem_of_allLessons. eauto.
  - by rewrite Hnq, andb_false_r.
  - intros k [= <-]. exists quiz. split; [|done].
    apply elem_of_allQuizzes. eauto.
  - by rewrite Hnl.
  - intros k' Hin. apply elem_of_union in Hin as [Hin|Hin]; [by apply Hcl|].
    apply elem_of_singleton in Hin. subst k'. split; [done|by apply Hl].
  - destruct passed; [|done].
    intros k' Hin. apply elem_of_union in Hin as [Hin|Hin]; [by apply Hcq|].
    apply elem_of_singleton in Hin. subst k'. split; [done|by apply Hq].
  - by rewrite andb_false_r.
  - by rewrite andb_false_r.
Qed.

Lemma run_tidy (actions : list Action) s :
  Forall (onScreen (phases s)) actions → tidy s →
  ∃ s', run s actions = Return s' ∧ phases s' = phases s ∧ tidy s'.
Proof.
  revert s; induction actions as [|a rest IH]; intros s Hon Hs.
  - by exists s.
  - apply Forall_cons in Hon as [Ha Hrest]. simpl.
    destruct (act_cases s a Ha) as (s1 & Hact & _). rewrite Hact.
    pose proof (act_phases s a s1 Hact) as Hp.
    destruct (IH s1) as (s' & Hrun & Hp' & Hs').
    + by rewrite Hp.
    + by apply (act_tidy s a).
    + exists s'. split; [done|]. split; [congruence|done].
Qed.

(** X21. From the portal as mounted, every sequence of actions on screen
    runs without a throw and leaves the tree untouched; only ids of
    lessons and quizzes of the tree are ever recorded as completed, a
    lesson or quiz whose id is the empty string is never recorded, and the
    lesson viewer and the quiz viewer are never open together. *)
Theorem run_records_tree_ids (phases : list Phase.t) (actions : list Action) :
  Forall (onScreen phases) actions →
  ∃ s', run (start phases) actions = Return s'
    ∧ Portal.phases s' = phases
    ∧ (∀ k, k ∈ completedLessons s' →
         k ≠ "" ∧ ∃ lesson, lesson ∈ Spec.allLessons phases ∧ Lesson.id lesson = k)
    ∧ (∀ k, k ∈ completedQuizzes s' →
         k ≠ "" ∧ ∃ quiz, quiz ∈ Spec.allQuizzes phases ∧ Quiz.id quiz = k)
    ∧ truthy (currentLesson s') && truthy (currentQuiz s') = false.
Proof.
  intros Hon.
  destruct (run_tidy actions (start phases)) as (s' & Hrun & Hp & Hs'); [done| |].
  { refine (conj _ (conj _ (conj _ (conj _ _)))); simpl; try done;
      intros k Hk; by apply not_elem_of_empty in Hk. }
  exists s'. split; [done|]. split; [done|].
  destruct Hs' as (Hcl & Hcq & _ & _ & Hone). rewrite Hp in Hcl, Hcq. done.
Qed.

Lemma run_records_tree_ids_witness :
  ∃ s', run (start [Samples.phaseAB])
            [ClickLesson Samples.lessonB Samples.moduleAB;
             ClickLesson Samples.lessonA Samples.moduleAB;
             LessonMarkedComplete; ClickQuiz Samples.moduleAB] = Return s'
    ∧ Portal.phases s' = [Samples.phaseAB]
    ∧ (∀ k, k ∈ completedLessons s' →
         k ≠ "" ∧ ∃ lesson, lesson ∈ Spec.allLessons [Samples.phaseAB]
                            ∧ Lesson.id lesson = k)
    ∧ (∀ k, k ∈ completedQuizzes s' →
         k ≠ "" ∧ ∃ quiz, quiz ∈ Spec.allQuizzes [Samples.phaseAB]
                          ∧ Quiz.id quiz = k)
    ∧ truthy (currentLesson s') && truthy (currentQuiz s') = false.
Proof.
  apply (run_records_tree_ids [Samples.phaseAB]).
  assert (Hm : ∃ phase, phase ∈ [Samples.phaseAB]
                        ∧ Samples.moduleAB ∈ Phase.modules phase).
  { exists Samples.phaseAB. split; apply list_elem_of_here. }
  apply List.Forall_cons; [|apply List.Forall_cons;
    [|apply List.Forall_cons; [|apply List.Forall_cons; [|apply List.Forall_nil]]]];
    simpl.
  - split; [exact Hm|]. apply list_elem_of_further, list_elem_of_here.
  - split; [exact Hm|]. apply list_elem_of_here.
  - exact I.
  - exact Hm.
Defined.

(** Distinct ids name one place in the tree. *)
Lemma NoDup_bind_fmap_inv {A B C} (f : B → C) (g : A → list B)
    (l : list A) (a : A) :
  NoDup (f <$> (l ≫= g)) → a ∈ l → NoDup (f <$> g a).
Proof.
  induction l as [|a0 rest IH]; intros Hnd Ha; [by inversion Ha|].
  rewrite bind_cons, fmap_app in Hnd.
  apply NoDup_app in Hnd as (Hnd0 & _ & Hrest).
  apply elem_of_cons in Ha as [->|Ha]; [done|by apply IH].
Qed.

Lemma NoDup_bind_fmap_same {A B C} (f : B → C) (g : A → list B)
    (l : list A) (a a' : A) (b b' : B) :
  NoDup (f <$> (l ≫= g)) → a ∈ l → a' ∈ l → b ∈ g a → b' ∈ g a' →
  f b = f b' → a = a'.
Proof.
  induction l as [|a0 rest IH]; intros Hnd Ha Ha' Hb Hb' Hf; [by inversion Ha|].
  rewrite bind_cons, fmap_app in Hnd.
  apply NoDup_app in Hnd as (_ & Hdisj & Hrest).
  assert (Hrest_in : ∀ x y, x ∈ rest → y ∈ g x → f y ∈ f <$> (rest ≫= g)).
  { intros x y Hx Hy. apply list_elem_of_fmap. exists y. split; [done|].
    apply list_elem_of_bind. eauto. }
  apply elem_of_cons in Ha as [->|Ha]; apply elem_of_cons in Ha' as [->|Ha'].
  - done.
  - exfalso. apply (Hdisj (f b)).
    + apply list_elem_of_fmap. eauto.
    + rewrite Hf. by apply (Hrest_in a' b').
  - exfalso. apply (Hdisj (f b')).
    + apply list_elem_of_fmap. eauto.
    + rewrite <- Hf. by apply (Hrest_in a b).
  - by apply IH.
Qed.

Lemma NoDup_omap_fmap_same {A B C} (f : B → C) (g : A → option B)
    (l : list A) (a a' : A) (b b' : B) :
  NoDup (f <$> omap g l) → a ∈ l → a' ∈ l → g a = Some b → g a' = Some b' →
  f b = f b' → a = a'.
Proof.
  induction l as [|a0 rest IH]; intros Hnd Ha Ha' Hb Hb' Hf; [by inversion Ha|].
  assert (Hcons : omap g (a0 :: rest)
                  = match g a0 with
                    | Some y => y :: omap g rest
                    | None => omap g rest
                    end) by reflexivity.
  rewrite Hcons in Hnd.
  assert (Hrest_in : ∀ x y, x ∈ rest → g x = Some y → f y ∈ f <$> omap g rest).
  { intros x y Hx Hy. apply list_elem_of_fmap. exists y. split; [done|].
    apply list_elem_of_omap. eauto. }
  apply elem_of_cons in Ha as [->|Ha]; apply elem_of_cons in Ha' as [->|Ha'].
  - done.
  - exfalso. rewrite Hb in Hnd. rewrite fmap_cons in Hnd.
    apply NoDup_cons in Hnd as [Hnot _]. apply Hnot.
    rewrite Hf. by apply (Hrest_in a' b').
  - exfalso. rewrite Hb' in Hnd. rewrite fmap_cons in Hnd.
    apply NoDup_cons in Hnd as [Hnot _]. apply Hnot.
    rewrite <- Hf. by apply (Hrest_in a b).
  - apply IH; try done. destruct (g a0); [|done].
    rewrite fmap_cons in Hnd. by apply NoDup_cons in Hnd as [_ ?].
Qed.

(** What an open viewer stands for: the lesson it shows has its
    predecessor completed, the quiz it shows has all its lessons
    completed. *)
Local Abbreviation lessonOpenable s :=
  (∀ k m i lesson previous,
     currentLesson s = Some k → m ∈ Spec.allModules (phases s) →
     CModule.lessons m !! S i = Some lesson → Lesson.id lesson = k →
     CModule.lessons m !! i = Some previous →
     Lesson.id previous ∈ completedLessons s).
Local Abbreviation quizOpenable s :=
  (∀ k m quiz lesson,
     currentQuiz s = Some k → m ∈ Spec.allModules (phases s) →
     CModule.quiz m = Some quiz → Quiz.id quiz = k →
     lesson ∈ CModule.lessons m →
     Lesson.id lesson ∈ completedLessons s).

Lemma inOrder_alt s :
  inOrder s
  ↔ ∀ m, m ∈ Spec.allModules (phases s) →
      (∀ i lesson previous,
         CModule.lessons m !! S i = Some lesson →
         CModule.lessons m !! i = Some previous →
         Lesson.id lesson ∈ completedLessons s →
         Lesson.id previous ∈ completedLessons s)
      ∧ (∀ quiz lesson,
           CModule.quiz m = Some quiz →
           Quiz.id quiz ∈ completedQuizzes s →
           lesson ∈ CModule.lessons m →
           Lesson.id lesson ∈ completedLessons s).
Proof.
  unfold inOrder. split.
  - intros H m Hm. apply elem_of_allModules in Hm as (phase & Hp & Hm).
    by apply (H phase m).
  - intros H phase m Hp Hm. apply H. apply elem_of_allModules. eauto.
Qed.

Lemma act_ordered s a s' :
  NoDup (Lesson.id <$> Spec.allLessons (phases s)) →
  NoDup (Quiz.id <$> Spec.allQuizzes (phases s)) →
  onScreen (phases s) a → act s a = Return s' →
  inOrder s ∧ lessonOpenable s ∧ quizOpenable s →
  inOrder s' ∧ lessonOpenable s' ∧ quizOpenable s'.
Proof.
  intros Hndl Hndq Hon Hact (Hord & Hol & Hoq).
  rewrite inOrder_alt in Hord. rewrite inOrder_alt.
  destruct (act_cases s a Hon) as (s1 & Hact1 & Hcase).
  rewrite Hact in Hact1. injection Hact1 as <-.
  destruct Hcase as [->|[(lesson & m & Hm & Hlm & _ & _ & Hun & ->)
    |[(m & quiz & Hm & Hquiz & _ & _ & Hun & ->)
    |[(k & Hk & _ & ->)|[->|[(k & passed & Hk & _ & _ & ->)| ->]]]]]];
    simpl.
  - done.
  - (* a lesson is opened *)
    split; [done|]. split; [|done].
    intros k m' i lesson' previous [= <-] Hm' Hi Hid Hprev.
    assert (m' = m) as ->.
    { apply (NoDup_bind_fmap_same Lesson.id CModule.lessons
               (Spec.allModules (phases s)) m' m lesson' lesson); try done.
      by apply list_elem_of_lookup_2 in Hi. }
    pose proof (NoDup_bind_fmap_inv Lesson.id CModule.lessons _ m Hndl Hm) as Hnd.
    apply list_elem_of_lookup_1 in Hlm as [j Hj].
    assert (j = S i) as ->.
    { apply (NoDup_lookup _ j (S i) (Lesson.id lesson) Hnd);
        rewrite list_lookup_fmap; [rewrite Hj | rewrite Hi]; simpl; congruence. }
    rewrite (isLessonUnlocked_at_first _ lesson m (S i)) in Hun;
      [|by apply findIndex_own_position|by exists lesson].
    rewrite Hprev in Hun. injection Hun as Hun.
    by apply bool_decide_eq_true in Hun.
  - (* a quiz is opened *)
    split; [done|]. split; [done|].
    intros k m' quiz' lesson [= <-] Hm' Hquiz' Hid Hlesson.
    assert (m' = m) as ->.
    { by apply (NoDup_omap_fmap_same Quiz.id CModule.quiz
                  (Spec.allModules (phases s)) m' m quiz' quiz). }
    unfold isQuizUnlocked in Hun. rewrite every_true_iff in Hun.
    specialize (Hun lesson Hlesson). by apply bool_decide_eq_true in Hun.
  - (* the open lesson is recorded *)
    split; [|split; [done|]].
    + intros m Hm. destruct (Hord m Hm) as [Hseq Hquiz]. split.
      * intros i lesson previous Hi Hprev Hin.
        apply elem_of_union in Hin as [Hin|Hin].
        -- apply elem_of_union_l. by apply (Hseq i lesson previous).
        -- apply elem_of_singleton in Hin. apply elem_of_union_l.
           by apply (Hol k m i lesson previous).
      * intros quiz lesson Hq Hin Hl. apply elem_of_union_l.
        by apply (Hquiz quiz lesson).
    + intros k' m quiz lesson Hk' Hm Hq Hid Hl. apply elem_of_union_l.
      by apply (Hoq k' m quiz lesson).
  - (* the lesson viewer is closed *)
    split; [done|]. split; [done|]. done.
  - (* the open quiz is finished *)
    split; [|split; [done|done]].
    intros m Hm. destruct (Hord m Hm) as [Hseq Hquiz]. split; [done|].
    intros quiz lesson Hq Hin Hl. destruct passed.
    + apply elem_of_union in Hin as [Hin|Hin].
      * by apply (Hquiz quiz lesson).
      * apply elem_of_singleton in Hin. by apply (Hoq k m quiz lesson).
    + by apply (Hquiz quiz lesson).
  - (* the quiz viewer is closed *)
    split; [done|]. split; [done|]. done.
Qed.

Lemma run_ordered (actions : list Action) s :
  NoDup (Lesson.id <$> Spec.allLessons (phases s)) →
  NoDup (Quiz.id <$> Spec.allQuizzes (phases s)) →
  Forall (onScreen (phases s)) actions →
  inOrder s ∧ lessonOpenable s ∧ quizOpenable s →
  ∃ s', run s actions = Return s' ∧ inOrder s'.
Proof.
  revert s; induction actions as [|a rest IH]; intros s Hndl Hndq Hon Hs.
  - exists s. by destruct Hs.
  - apply Forall_cons in Hon as [Ha Hrest]. simpl.
    destruct (act_cases s a Ha) as (s1 & Hact & _). rewrite Hact.
    pose proof (act_phases s a s1 Hact) as Hp.
    apply IH; [by rewrite Hp|by rewrite Hp|by rewrite Hp|].
    by apply (act_ordered s a).
Qed.

(** X22. In a tree whose lesson ids are pairwise distinct and whose quiz
    ids are pairwise distinct, every sequence of actions on screen, from
    the portal as mounted, runs without a throw and completes lessons in
    order: a completed lesson has the lesson before it completed, and a
    passed quiz has every lesson of its module completed. *)
Theorem run_completes_in_order (phases : list Phase.t) (actions : list Action) :
  NoDup (Lesson.id <$> Spec.allLessons phases) →
  NoDup (Quiz.id <$> Spec.allQuizzes phases) →
  Forall (onScreen phases) actions →
  ∃ s', run (start phases) actions = Return s' ∧ inOrder s'.
Proof.
  intros Hndl Hndq Hon. apply run_ordered; [done|done|done|].
  split; [|by split].
  intros phase m _ _. simpl. split.
  - intros i lesson previous _ _ Hin. by apply not_elem_of_empty in Hin.
  - intros quiz lesson _ Hin. by apply not_elem_of_empty in Hin.
Qed.

Lemma run_completes_in_order_witness :
  ∃ s', run (start [Samples.phaseAB])
            [ClickLesson Samples.lessonB Samples.moduleAB;
             ClickLesson Samples.lessonA Samples.moduleAB;
             LessonMarkedComplete; ClickQuiz Samples.moduleAB] = Return s'
        ∧ inOrder s'.
Proof.
  apply (run_completes_in_order [Samples.phaseAB]).
  - apply (bool_decide_unpack _). vm_compute. exact I.
  - apply (bool_decide_unpack _). vm_compute. exact I.
  - assert (Hm : ∃ phase, phase ∈ [Samples.phaseAB]
                          ∧ Samples.moduleAB ∈ Phase.modules phase).
    { exists Samples.phaseAB. split; apply list_elem_of_here. }
    apply List.Forall_cons; [|apply List.Forall_cons;
      [|apply List.Forall_cons; [|apply List.Forall_cons; [|apply List.Forall_nil]]]];
      simpl.
    + split; [exact Hm|]. apply list_elem_of_further, list_elem_of_here.
    + split; [exact Hm|]. apply list_elem_of_here.
    + exact I.
    + exact Hm.
Defined.

End NavigationFacts.

(* ===================================================================== *)
(** ** The stored score and progress, in binary64 *)
(* ===================================================================== *)

Section Binary64Facts.
Import Binary64.

(** Every pair [count <= total <= checked] is compared by evaluation. *)
Lemma closeUpTo_checked : closeUpTo checked = true.
Proof. vm_cast_no_check (eq_refl true). Qed.

Lemma closeUpTo_counts (N count total : nat) :
  closeUpTo N = true →
  (0 < total ≤ N)%nat → (count ≤ total)%nat →
  closeZ (Z.of_nat count) (Z.of_nat total) = true.
Proof.
  intros Hall Ht Hc.
  unfold closeUpTo in Hall. rewrite forallb_forall in Hall.
  assert (Hin : ∀ k, (k ≤ total)%nat →
            In (Z.of_nat k) (List.map Z.of_nat (seq 0 (S N)))).
  { intros k Hk. apply in_map, in_seq. lia. }
  specialize (Hall (Z.of_nat total) (Hin total ltac:(lia))).
  apply orb_true_iff in Hall as [Hz|Hall]; [apply Z.eqb_eq in Hz; lia|].
  rewrite forallb_forall in Hall.
  specialize (Hall (Z.of_nat count) (Hin count Hc)).
  apply orb_true_iff in Hall as [Hlt|Hall]; [apply Z.ltb_lt in Hlt; lia|done].
Qed.

Lemma closeZ_counts (count total : nat) :
  (0 < total ≤ checked)%nat → (count ≤ total)%nat →
  closeZ (Z.of_nat count) (Z.of_nat total) = true.
Proof. exact (closeUpTo_counts checked count total closeUpTo_checked). Qed.

(** For [count <= total <= checked] the double [(count / total) * 100] is
    finite and within [2^-46] of [100 * count / total], it is at least 70
    exactly when [100 * count / total] is, and the exact computation
    [times (divide count total) 100] is [100 * count / total]. *)
Lemma percentage_close (count total : nat) :
  (0 < total ≤ checked)%nat → (count ≤ total)%nat →
  (∃ q, valueOf (percentage count total) = Some q
        ∧ (Qabs (q - Spec.ratio count total) <= 1 # 2 ^ 46)%Q)
  ∧ (handleFinish (percentage count total) = true
     ↔ (70 <= Spec.ratio count total)%Q)
  ∧ ∃ r, times (divide count total) 100 = Finite r
         ∧ (r == Spec.ratio count total)%Q.
Proof.
  intros Ht Hc. pose proof (closeZ_counts count total Ht Hc) as Hclose.
  unfold closeZ in Hclose. fold (percentage count total) in Hclose.
  fold (Spec.ratio count total) in Hclose.
  destruct (valueOf (percentage count total)) as [q|]; [|done].
  apply andb_true_iff in Hclose as [Hnear Hsame].
  apply Qle_bool_iff in Hnear. apply Bool.eqb_prop in Hsame.
  split; [by exists q|]. split.
  - unfold handleFinish. rewrite Hsame. apply Qle_bool_iff.
  - destruct (divide_pos count total) as (r & -> & Hr); [lia|].
    exists (r * 100)%Q. split; [done|].
    rewrite Hr. unfold Spec.ratio, Qdiv. ring.
Qed.

(** The stored doubles of 11 out of 20 (55.000000000000007) and of 29 out
    of 100 (28.999999999999996). *)
Example percentage_rounded :
  percentage 11 20 = 0x1.b800000000001p+5%float
  ∧ percentage 29 100 = 0x1.cffffffffffffp+4%float
  ∧ percentage 11 20 ≠ 55%float
  ∧ valueOf (percentage 11 20) = Some (7740561859543041 # 2 ^ 47)%Q.
Proof. vm_compute. repeat split; discriminate. Qed.




(** Four questions, three right: the stored 75 passes, also for a quiz
    whose [passingScore] is 90; two right: the stored 50 fails. *)
Example stored_scores :
  handleSubmit (Samples.loaded Samples.fourQuestions Samples.threeRight) = 75%float
  ∧ Portal.completedQuizzes
      (finishQuiz 75 Samples.takingQuiz) = {["q"]}
  ∧ handleSubmit (Samples.loaded Samples.fourQuestions Samples.twoRight) = 50%float
  ∧ Portal.completedQuizzes (finishQuiz 50 Samples.takingQuiz) = ∅.
Proof. vm_compute. done. Qed.

(** C4, as stated, fails: with 11 of 20 lessons completed the value
    returned is the double above 55, not 100 * 11 / 20. *)
Lemma progress_not_exact : ¬ Spec.progressIsExact.
Proof.
  intros H.
  destruct (H [Samples.twentyLessons] Samples.elevenDone ∅)
    as (q & Hvalue & Hq).
  { vm_compute. discriminate. }
  vm_compute in Hvalue. injection Hvalue as <-.
  vm_compute in Hq. discriminate.
Qed.

(** C4, amended. The progress is the double [(done / total) * 100], where
    total counts every lesson and every quiz of every module and done
    counts those whose id is in the matching completion set; when total is
    0, and so for an empty phase list, it is the number 0.  For a tree of
    at most [checked] items the value is within [2^-46] of
    100 * done / total. *)
Theorem getTotalProgress_stored (phases : list Phase.t) (cl cq : gset string) :
  let total := Spec.total phases in
  let done := Spec.done phases cl cq in
  (total ≠ O → getTotalProgress phases cl cq = percentage done total)
  ∧ (total = O → getTotalProgress phases cl cq = 0%float)
  ∧ getTotalProgress [] cl cq = 0%float
  ∧ ((0 < total ≤ checked)%nat →
     ∃ q, valueOf (getTotalProgress phases cl cq) = Some q
          ∧ (Qabs (q - Spec.ratio done total) <= 1 # 2 ^ 46)%Q).
Proof.
  simpl.
  assert (Hvalue : getTotalProgress phases cl cq
                   = if (0 <? Spec.total phases)%nat
                     then percentage (Spec.done phases cl cq) (Spec.total phases)
                     else 0%float).
  { unfold getTotalProgress. by rewrite countItems_spec. }
  split; [|split; [|split; [done|]]].
  - intros Hne. rewrite Hvalue.
    destruct (Nat.ltb_spec 0 (Spec.total phases)); [done|lia].
  - intros Hz. rewrite Hvalue. by rewrite Hz.
  - intros Ht. rewrite Hvalue.
    destruct (Nat.ltb_spec 0 (Spec.total phases)); [|lia].
    destruct (percentage_close (Spec.done phases cl cq) (Spec.total phases))
      as (Hnear & _); [done|apply done_le_total|done].
Qed.

Lemma getTotalProgress_stored_witness :
  (getTotalProgress [Samples.twentyLessons] Samples.elevenDone ∅
   = percentage (Spec.done [Samples.twentyLessons] Samples.elevenDone ∅)
                (Spec.total [Samples.twentyLessons]))
  ∧ getTotalProgress [Phase.mk "p0" 0 "Empty" "" []] {["a"]} ∅ = 0%float
  ∧ ∃ q, valueOf (getTotalProgress [Samples.twentyLessons] Samples.elevenDone ∅)
         = Some q
         ∧ (Qabs (q - Spec.ratio
                         (Spec.done [Samples.twentyLessons] Samples.elevenDone ∅)
                         (Spec.total [Samples.twentyLessons]))
            <= 1 # 2 ^ 46)%Q.
Proof.
  split; [|split].
  - refine (proj1 (getTotalProgress_stored [Samples.twentyLessons]
                     Samples.elevenDone ∅) _).
    vm_compute. discriminate.
  - refine (proj1 (proj2 (getTotalProgress_stored
                            [Phase.mk "p0" 0 "Empty" "" []] {["a"]} ∅)) _).
    reflexivity.
  - refine (proj2 (proj2 (proj2 (getTotalProgress_stored [Samples.twentyLessons]
                                   Samples.elevenDone ∅))) _).
    vm_compute. lia.
Defined.

End Binary64Facts.
